(** * A shallow embedding of the HackRx document question-answering service

    The repository has two copies of the retrieval layer:
    - [src/HealthLink/app/services]: [pdf_processor.py] (download, text
      extraction, chunking) and [embeddings.py] (keyword-only search);
    - [src/app/services]: [embeddings.py] (Gemini embeddings with a keyword
      fallback) and [qa_service.py] (the request orchestrator).

    Python strings are sequences of Unicode code points, modelled as
    [list Z].  Python integers are [Z]; Python floats (numpy float64) are
    Rocq's primitive binary64 floats.  The external collaborators (the
    Gemini embedding and generation endpoints, the PDF download and
    PyMuPDF, and the Unicode case mapping of [str.lower]) are parameters:
    every theorem holds for all of them. *)

From Stdlib Require Import String Ascii List ZArith Bool Lia.
From Stdlib Require Import Sorting.Sorted Permutation.
From Stdlib Require Import Floats.
Import ListNotations.
Open Scope Z_scope.

(** ** Python runtime: strings, slices, [range] and exceptions *)
Module Py.

(** A Python [str]: its code points. *)
Definition pstr := list Z.

(** An ASCII literal as a [str]. *)
Definition lit (s : string) : pstr :=
  map (fun a => Z.of_nat (nat_of_ascii a)) (list_ascii_of_string s).

Fixpoint pstr_eqb (a b : pstr) : bool :=
  match a, b with
  | [], [] => true
  | x :: a', y :: b' => (x =? y) && pstr_eqb a' b'
  | _, _ => false
  end.

(** [str.isspace] on one code point: the characters that [str.split()]
    with no argument splits on (CPython's [Py_UNICODE_ISSPACE]). *)
Definition isspace (c : Z) : bool :=
  ((9 <=? c) && (c <=? 13)) || ((28 <=? c) && (c <=? 32)) ||
  (c =? 133) || (c =? 160) || (c =? 5760) ||
  ((8192 <=? c) && (c <=? 8202)) || (c =? 8232) || (c =? 8233) ||
  (c =? 8239) || (c =? 8287) || (c =? 12288).

(** [s.split()]: maximal runs of non-whitespace, no empty words. *)
Fixpoint split_aux (cur : pstr) (s : pstr) : list pstr :=
  match s with
  | [] => match cur with [] => [] | _ => [rev cur] end
  | c :: s' =>
      if isspace c then
        match cur with
        | [] => split_aux [] s'
        | _ => rev cur :: split_aux [] s'
        end
      else split_aux (c :: cur) s'
  end.

Definition split (s : pstr) : list pstr := split_aux [] s.

(** [sep.join(words)]. *)
Fixpoint join (sep : pstr) (ws : list pstr) : pstr :=
  match ws with
  | [] => []
  | [w] => w
  | w :: ws' => w ++ sep ++ join sep ws'
  end.

Fixpoint lstrip (s : pstr) : pstr :=
  match s with
  | c :: s' => if isspace c then lstrip s' else s
  | [] => []
  end.

(** [s.strip()]. *)
Definition strip (s : pstr) : pstr := rev (lstrip (rev (lstrip s))).

(** [s.replace(chr(a), chr(b))] for single characters. *)
Definition replace_char (a b : Z) (s : pstr) : pstr :=
  map (fun c => if c =? a then b else c) s.

(** [s.startswith(p)]. *)
Fixpoint startswith (s p : pstr) : bool :=
  match p, s with
  | [], _ => true
  | x :: p', y :: s' => (x =? y) && startswith s' p'
  | _ :: _, [] => false
  end.

(** A slice bound as Python normalises it against a length [n]. *)
Definition slice_index (n i : Z) : Z :=
  if i <? 0 then Z.max 0 (n + i) else Z.min i n.

(** [l[i:j]]. *)
Definition slice {A} (l : list A) (i j : Z) : list A :=
  let n := Z.of_nat (length l) in
  let i' := slice_index n i in
  let j' := slice_index n j in
  firstn (Z.to_nat (j' - i')) (skipn (Z.to_nat i') l).

(** [l[:k]]. *)
Definition take {A} (k : Z) (l : list A) : list A := slice l 0 k.

(** Python exceptions; only [ValueError] is raised by the modelled code. *)
Inductive exc := ValueError (msg : string).

Definition result (A : Type) := (exc + A)%type.

Definition exc_msg (e : exc) : string := match e with ValueError m => m end.

Fixpoint range_up (i stop step : Z) (fuel : nat) : list Z :=
  match fuel with
  | O => []
  | S f => if i <? stop then i :: range_up (i + step) stop step f else []
  end.

Fixpoint range_down (i stop step : Z) (fuel : nat) : list Z :=
  match fuel with
  | O => []
  | S f => if stop <? i then i :: range_down (i + step) stop step f else []
  end.

(** [range(start, stop, step)]: raises on a zero step; the fuel bounds the
    number of elements (at most [|stop - start|] for a non-zero step). *)
Definition range (start stop step : Z) : result (list Z) :=
  if step =? 0 then inl (ValueError "range() arg 3 must not be zero")
  else if 0 <? step then inr (range_up start stop step (Z.to_nat (stop - start)))
  else inr (range_down start stop step (Z.to_nat (start - stop))).

Fixpoint digits_aux (fuel : nat) (n : Z) (acc : pstr) : pstr :=
  match fuel with
  | O => acc
  | S f =>
      let acc' := (48 + n mod 10) :: acc in
      if n / 10 =? 0 then acc' else digits_aux f (n / 10) acc'
  end.

(** [str(n)] for a Python [int]. *)
Definition str_int (n : Z) : pstr :=
  let ds := digits_aux (S (Pos.size_nat (Z.to_pos (Z.abs n)))) (Z.abs n) [] in
  if n <? 0 then 45 :: ds else ds.

End Py.

Import Py.

(** ** [app/models/schemas.py] *)

(** [DocumentChunk]. *)
Record DocumentChunk := mkChunk {
  content : pstr;
  chunk_id : Z;
  page_number : option Z;
  embedding : option (list float)
}.

(** ** [HealthLink/app/services/pdf_processor.py] and [core/config.py] *)
Module PDF.

(** The configuration a [PDFProcessor] copies from [settings]. *)
Record PDFProcessor := mkProcessor {
  chunk_size : Z;
  chunk_overlap : Z;
  max_file_size : Z
}.

(** [Settings]: [CHUNK_SIZE = 400], [CHUNK_OVERLAP = 50],
    [MAX_FILE_SIZE = 50 * 1024 * 1024]. *)
Definition default_processor : PDFProcessor :=
  mkProcessor 400 50 (50 * 1024 * 1024).

(** [_clean_text]. *)
Definition clean_text (text : pstr) : pstr :=
  let text := join (lit " ") (split text) in
  let text := replace_char 0 32 text in
  let text := replace_char 65533 32 text in
  strip text.

(** The page loop of [extract_text_from_pdf]: [pages] are the
    [page.get_text()] results of the pages from index [page_num] on. *)
Fixpoint extract_pages (pages : list pstr) (page_num : Z) : list (pstr * Z) :=
  match pages with
  | [] => []
  | t :: rest =>
      let text := clean_text t in
      match strip text with
      | [] => extract_pages rest (page_num + 1)
      | _ => (text, page_num + 1) :: extract_pages rest (page_num + 1)
      end
  end.

(** [extract_text_from_pdf], given the texts PyMuPDF returns per page. *)
Definition extract_text_from_pdf (pages : list pstr) : list (pstr * Z) :=
  extract_pages pages 0.

(** The inner [for i in range(...)] loop of [chunk_text] on one page;
    threads the output list and the [chunk_id] counter. *)
Fixpoint window_loop (p : PDFProcessor) (words : list pstr) (page_num : Z)
    (idxs : list Z) (chunks : list DocumentChunk) (cid : Z)
    : list DocumentChunk * Z :=
  match idxs with
  | [] => (chunks, cid)
  | i :: rest =>
      let chunk_words := slice words i (i + chunk_size p) in
      if Z.of_nat (length chunk_words) <? 10 then
        window_loop p words page_num rest chunks cid
      else
        let chunk := mkChunk (join (lit " ") chunk_words) cid (Some page_num) None in
        window_loop p words page_num rest (chunks ++ [chunk]) (cid + 1)
  end.

(** The outer [for text, page_num in text_pages] loop of [chunk_text]. *)
Fixpoint page_loop (p : PDFProcessor) (pages : list (pstr * Z))
    (chunks : list DocumentChunk) (cid : Z) : result (list DocumentChunk) :=
  match pages with
  | [] => inr chunks
  | (text, page_num) :: rest =>
      let words := split text in
      match range 0 (Z.of_nat (length words)) (chunk_size p - chunk_overlap p) with
      | inl e => inl e
      | inr idxs =>
          let '(chunks', cid') := window_loop p words page_num idxs chunks cid in
          page_loop p rest chunks' cid'
      end
  end.

(** [chunk_text]. *)
Definition chunk_text (p : PDFProcessor) (text_pages : list (pstr * Z))
    : result (list DocumentChunk) :=
  match page_loop p text_pages [] 0 with
  | inl e => inl (ValueError (String.append "Failed to chunk text: " (exc_msg e)))
  | inr chunks => inr chunks
  end.

End PDF.

(** ** Python runtime: sets and [list.sort] *)
Module PySet.

(** [w in ws] for a list or set of strings. *)
Definition mem (w : pstr) (ws : list pstr) : bool := existsb (pstr_eqb w) ws.

Fixpoint set_aux (seen : list pstr) (ws : list pstr) : list pstr :=
  match ws with
  | [] => rev seen
  | w :: ws' => if mem w seen then set_aux seen ws' else set_aux (w :: seen) ws'
  end.

(** [set(ws)]: the distinct elements (in first-occurrence order, which no
    modelled computation observes). *)
Definition set_of (ws : list pstr) : list pstr := set_aux [] ws.

(** [len(a.intersection(b))] for two sets. *)
Definition intersection_len (a b : list pstr) : nat :=
  length (filter (fun w => mem w b) a).

Fixpoint insert_rev {A} (lt : A -> A -> bool) (x : A) (l : list A) : list A :=
  match l with
  | [] => [x]
  | y :: r => if lt x y then y :: insert_rev lt x r else x :: l
  end.

(** [l.sort(key=k, reverse=True)], where [lt a b] is [k(a) < k(b)].
    Python's sort is stable, also with [reverse=True]: elements with
    equal keys keep their original order. *)
Fixpoint sort_reverse {A} (lt : A -> A -> bool) (l : list A) : list A :=
  match l with
  | [] => []
  | x :: r => insert_rev lt x (sort_reverse lt r)
  end.

End PySet.

Import PySet.

(** ** [HealthLink/app/services/embeddings.py]: keyword-only search *)
Module HealthLink.

(** The service state: [self.chunks]. *)
Definition EmbeddingService := list DocumentChunk.

(** [create_vector_index]: stores the chunks (the assignment cannot
    raise, so the [except] branch is never taken). *)
Definition create_vector_index (chunks : list DocumentChunk) : result EmbeddingService :=
  inr chunks.

(** [clear_index]. *)
Definition clear_index (self : EmbeddingService) : EmbeddingService := [].

Section Search.

(** [str.lower]. *)
Variable lower : pstr -> pstr.

(** The scoring loop of [search_similar_chunks]. *)
Fixpoint score_loop (query_words : list pstr) (chunks : list DocumentChunk)
    : list (DocumentChunk * Z) :=
  match chunks with
  | [] => []
  | chunk :: rest =>
      let chunk_words := set_of (split (lower (content chunk))) in
      let overlap := Z.of_nat (intersection_len query_words chunk_words) in
      if 0 <? overlap then (chunk, overlap) :: score_loop query_words rest
      else score_loop query_words rest
  end.

(** The loop filling the remaining slots. *)
Fixpoint fill_loop (used_chunk_ids : list Z) (top_k : Z)
    (pool similar_chunks : list DocumentChunk) : list DocumentChunk :=
  match pool with
  | [] => similar_chunks
  | chunk :: rest =>
      if negb (existsb (Z.eqb (chunk_id chunk)) used_chunk_ids) &&
         (Z.of_nat (length similar_chunks) <? top_k)
      then fill_loop used_chunk_ids top_k rest (similar_chunks ++ [chunk])
      else fill_loop used_chunk_ids top_k rest similar_chunks
  end.

(** [search_similar_chunks]. *)
Definition search_similar_chunks (self : EmbeddingService) (query : pstr) (top_k : Z)
    : result (list DocumentChunk) :=
  match self with
  | [] => inl (ValueError
      "Failed to search similar chunks: Text index not initialized. Create index first.")
  | _ =>
      let query_words := set_of (split (lower query)) in
      let scored_chunks := score_loop query_words self in
      let scored_chunks := sort_reverse (fun a b => snd a <? snd b) scored_chunks in
      let similar_chunks := map fst (take top_k scored_chunks) in
      let similar_chunks :=
        if Z.of_nat (length similar_chunks) <? top_k
        then fill_loop (map chunk_id similar_chunks) top_k self similar_chunks
        else similar_chunks in
      inr (take top_k similar_chunks)
  end.

End Search.

(** The page tag of [get_context_for_question]: Python's truthiness test
    [if chunk.page_number] is false for [None] and for [0]. *)
Definition page_info (chunk : DocumentChunk) : pstr :=
  match page_number chunk with
  | Some n => if n =? 0 then lit "[Unknown Page]"
              else lit "[Page " ++ str_int n ++ lit "]"
  | None => lit "[Unknown Page]"
  end.

(** Lines 74-83 of [get_context_for_question]: the context built from the
    retrieved chunks. *)
Definition assemble_context (similar_chunks : list DocumentChunk) : pstr :=
  match similar_chunks with
  | [] => lit "No relevant context found in the document."
  | _ => join [10; 10]
           (map (fun chunk => page_info chunk ++ lit " " ++ content chunk) similar_chunks)
  end.

(** [get_context_for_question]. *)
Definition get_context_for_question (lower : pstr -> pstr) (self : EmbeddingService)
    (question : pstr) (top_k : Z) : result pstr :=
  match search_similar_chunks lower self question top_k with
  | inl e => inl (ValueError
               (String.append "Failed to get context for question: " (exc_msg e)))
  | inr similar_chunks => inr (assemble_context similar_chunks)
  end.

End HealthLink.

(** ** [app/services/embeddings.py]: Gemini embeddings, keyword fallback *)
Module App.

Open Scope float_scope.

(** [np.linalg.norm]: the square root of the sum of squares (summed left
    to right; numpy may sum in another order). *)
Definition norm (v : list float) : float :=
  PrimFloat.sqrt (fold_left (fun acc x => acc + x * x) v 0).

(** [v / np.linalg.norm(v)]: a zero vector yields NaNs, as in numpy,
    which warns instead of raising. *)
Definition normalize (v : list float) : list float :=
  let n := norm v in map (fun x => x / n) v.

(** [np.dot(a, b)]: [None] when the shapes differ (numpy raises). *)
Fixpoint dot (a b : list float) : option float :=
  match a, b with
  | [], [] => Some 0
  | x :: a', y :: b' =>
      match dot a' b' with Some d => Some (x * y + d) | None => None end
  | _, _ => None
  end.

(** [[0.0] * 768]. *)
Definition zero_vector : list float := repeat 0 768.

Close Scope float_scope.

(** The service state: [self.chunks] and [self.embeddings]. *)
Record EmbeddingService := mkService {
  chunks : list DocumentChunk;
  embeddings : list (list float)
}.

(** [__init__] and [clear_index] leave both lists empty. *)
Definition empty_service : EmbeddingService := mkService [] [].

(** [clear_index]. *)
Definition clear_index (self : EmbeddingService) : EmbeddingService :=
  mkService [] [].

Section Service.

(** [str.lower]. *)
Variable lower : pstr -> pstr.

(** [client.models.embed_content(content=text, task_type=t).embedding]:
    [None] when the call raises (a missing client included). *)
Variable embed_content : pstr -> pstr -> option (list float).

(** [_get_embedding]: every exception becomes [None]. *)
Definition get_embedding (text task_type : pstr) : option (list float) :=
  embed_content text task_type.

(** One iteration of the loop of [create_vector_index]: [if embedding:] is
    false for [None] and for an empty vector. *)
Definition chunk_embedding (chunk : DocumentChunk) : list float :=
  match get_embedding (content chunk) (lit "retrieval_document") with
  | Some ((_ :: _) as e) => normalize e
  | _ => zero_vector
  end.

(** [create_vector_index]: nothing in its [try] block raises, so the
    outer [except] branch is never taken. *)
Definition create_vector_index (chunks : list DocumentChunk) : EmbeddingService :=
  mkService chunks (map chunk_embedding chunks).

(** The similarity loop: [None] when some [np.dot] raises. *)
Fixpoint similarities (query_normalized : list float) (chunks : list DocumentChunk)
    (embeddings : list (list float)) : option (list (DocumentChunk * float)) :=
  match chunks, embeddings with
  | chunk :: cs, e :: es =>
      match dot query_normalized e, similarities query_normalized cs es with
      | Some s, Some rest => Some ((chunk, s) :: rest)
      | _, _ => None
      end
  | _, _ => Some []
  end.

(** The semantic branch of [search_similar_chunks]: [None] when it is
    skipped or raises, and the keyword search runs instead. *)
Definition semantic_search (self : EmbeddingService) (query : pstr) (top_k : Z)
    : option (list DocumentChunk) :=
  match embeddings self with
  | [] => None
  | _ =>
      if Nat.eqb (length (embeddings self)) (length (chunks self)) then
        match get_embedding query (lit "retrieval_query") with
        | Some ((_ :: _) as query_embedding) =>
            let query_normalized := normalize query_embedding in
            match similarities query_normalized (chunks self) (embeddings self) with
            | Some sims =>
                let sims := sort_reverse (fun a b => PrimFloat.ltb (snd a) (snd b)) sims in
                Some (map fst (take top_k sims))
            | None => None
            end
        | _ => None
        end
      else None
  end.

(** The keyword scoring loop. *)
Fixpoint score_loop (query_words : list pstr) (chunks : list DocumentChunk)
    : list (DocumentChunk * Z) :=
  match chunks with
  | [] => []
  | chunk :: rest =>
      let chunk_words := set_of (split (lower (content chunk))) in
      let overlap := Z.of_nat (intersection_len query_words chunk_words) in
      if 0 <? overlap then (chunk, overlap) :: score_loop query_words rest
      else score_loop query_words rest
  end.

(** The loop filling the remaining slots. *)
Fixpoint fill_loop (used_chunk_ids : list Z) (top_k : Z)
    (pool similar_chunks : list DocumentChunk) : list DocumentChunk :=
  match pool with
  | [] => similar_chunks
  | chunk :: rest =>
      if negb (existsb (Z.eqb (chunk_id chunk)) used_chunk_ids) &&
         (Z.of_nat (length similar_chunks) <? top_k)
      then fill_loop used_chunk_ids top_k rest (similar_chunks ++ [chunk])
      else fill_loop used_chunk_ids top_k rest similar_chunks
  end.

(** The keyword fallback of [search_similar_chunks]. *)
Definition keyword_search (self : EmbeddingService) (query : pstr) (top_k : Z)
    : list DocumentChunk :=
  let query_words := set_of (split (lower query)) in
  let scored_chunks := score_loop query_words (chunks self) in
  let scored_chunks := sort_reverse (fun a b => snd a <? snd b) scored_chunks in
  let similar_chunks := map fst (take top_k scored_chunks) in
  let similar_chunks :=
    if Z.of_nat (length similar_chunks) <? top_k
    then fill_loop (map chunk_id similar_chunks) top_k (chunks self) similar_chunks
    else similar_chunks in
  take top_k similar_chunks.

(** [search_similar_chunks]. *)
Definition search_similar_chunks (self : EmbeddingService) (query : pstr) (top_k : Z)
    : result (list DocumentChunk) :=
  match chunks self with
  | [] => inl (ValueError
      "Failed to search similar chunks: Index not initialized. Create index first.")
  | _ =>
      match semantic_search self query top_k with
      | Some similar_chunks => inr similar_chunks
      | None => inr (keyword_search self query top_k)
      end
  end.

(** [get_context_for_question]; lines 165-174 are the same as in the
    HealthLink copy. *)
Definition get_context_for_question (self : EmbeddingService) (question : pstr)
    (top_k : Z) : result pstr :=
  match search_similar_chunks self question top_k with
  | inl e => inl (ValueError
               (String.append "Failed to get context for question: " (exc_msg e)))
  | inr similar_chunks => inr (HealthLink.assemble_context similar_chunks)
  end.

End Service.

End App.

(** ** [app/services/qa_service.py]: the request orchestrator *)
Module QA.

(** [QARequest] (after validation) and [QAResponse]. *)
Record QARequest := mkRequest {
  documents : pstr;
  questions : list pstr
}.

Record QAResponse := mkResponse { answers : list pstr }.

(** What [client.models.generate_content] does: raise, or return a
    response whose [.text] is [None] or a string. *)
Inductive GenerateOutcome :=
| GenRaises
| GenText (text : option pstr).

(** The not-found sentinel. *)
Definition not_found : pstr := lit "Not found in document".

(** The f-string prompt of [_generate_answer] (34 is the double quote,
    10 the newline). *)
Definition build_prompt (question context : pstr) : pstr :=
  join [10]
    [lit "Answer the question using only the provided context.";
     lit "If the answer is not in the context, reply " ++ [34] ++ not_found ++ [34] ++ lit ".";
     lit "Do not add any explanations, citations, or additional information.";
     lit "Provide only the direct answer.";
     [];
     lit "Context:";
     context;
     [];
     lit "Question:";
     question;
     [];
     lit "Answer:"].

Section Service.

(** [str.lower]. *)
Variable lower : pstr -> pstr.
(** The Gemini embedding endpoint, as in [App]. *)
Variable embed_content : pstr -> pstr -> option (list float).
(** The Gemini generation endpoint, on a prompt. *)
Variable generate_content : pstr -> GenerateOutcome.
(** [pdf_processor.process_pdf(url)]: the chunks or the exception raised. *)
Variable process_pdf : pstr -> result (list DocumentChunk).
(** [settings.TOP_K_CHUNKS]. *)
Variable top_k_chunks : Z.

(** [_generate_answer]: every exception becomes the sentinel. *)
Definition generate_answer (question context : pstr) : pstr :=
  match generate_content (build_prompt question context) with
  | GenRaises => not_found
  | GenText None => not_found
  | GenText (Some []) => not_found
  | GenText (Some text) =>
      let answer := strip text in
      if startswith (lower answer) (lit "answer:") then strip (skipn 7 answer)
      else answer
  end.

(** The body of the question loop, with its [try]/[except]. *)
Definition answer_question (svc : App.EmbeddingService) (question : pstr) : pstr :=
  match App.get_context_for_question lower embed_content svc question top_k_chunks with
  | inl _ => not_found
  | inr context => generate_answer question context
  end.

(** [for i, question in enumerate(request.questions, 1)]. *)
Fixpoint question_loop (svc : App.EmbeddingService) (qs : list pstr)
    (answers : list pstr) : list pstr :=
  match qs with
  | [] => answers
  | question :: rest => question_loop svc rest (answers ++ [answer_question svc question])
  end.

(** [process_qa_request] on the state of [self.embedding_service]: the
    response or the re-raised exception, and the final state.  The
    coroutine has no suspension point of its own after [process_pdf]
    (which downloads with the blocking [requests] library). *)
Definition process_qa_request (svc : App.EmbeddingService) (request : QARequest)
    : result QAResponse * App.EmbeddingService :=
  match process_pdf (documents request) with
  | inl e => (inl e, App.clear_index svc)
  | inr chunks =>
      let svc := App.create_vector_index embed_content chunks in
      let answers := question_loop svc (questions request) [] in
      let svc := App.clear_index svc in
      (inr (mkResponse answers), svc)
  end.

End Service.

End QA.

(** ** Properties stated by the specification *)
Module SpecProps.

(** A unit vector in the sense of the spec: its squared L2 norm is 1. *)
Definition unit_vector (v : list float) : bool :=
  PrimFloat.eqb (fold_left (fun acc x => (acc + x * x)%float) v 0%float) 1%float.

(** Spec 4.2: the index is internally consistent when either every chunk
    has a usable normalised embedding vector, or no chunk does. *)
Definition index_consistent (s : App.EmbeddingService) : Prop :=
  (length (App.embeddings s) = length (App.chunks s) /\
   Forall (fun v => unit_vector v = true) (App.embeddings s)) \/
  Forall (fun v => unit_vector v = false) (App.embeddings s).

(** Spec 4.2, keyword mode: [a] ranks before [b] when its score is larger,
    or equal with a smaller [chunk_id]. *)
Definition ranks_before (a b : DocumentChunk * Z) : bool :=
  (snd b <? snd a) || ((snd a =? snd b) && (chunk_id (fst a) <? chunk_id (fst b))).

Fixpoint insert_ranked (x : DocumentChunk * Z) (l : list (DocumentChunk * Z))
    : list (DocumentChunk * Z) :=
  match l with
  | [] => [x]
  | y :: r => if ranks_before y x then y :: insert_ranked x r else x :: l
  end.

(** Sorting by descending score, ties by ascending [chunk_id]. *)
Fixpoint sort_ranked (l : list (DocumentChunk * Z)) : list (DocumentChunk * Z) :=
  match l with
  | [] => []
  | x :: r => insert_ranked x (sort_ranked r)
  end.

(** Spec 4.2, keyword mode, in the words of the claim: score = size of the
    intersection of the lower-cased word sets; the chunks of positive score
    ranked, then the other chunks in index order, truncated to [k]. *)
Definition overlap_score (lower : pstr -> pstr) (query_words : list pstr)
    (c : DocumentChunk) : Z :=
  Z.of_nat (intersection_len query_words (set_of (split (lower (content c))))).

Definition keyword_topk (lower : pstr -> pstr) (chunks : list DocumentChunk)
    (query : pstr) (k : Z) : list DocumentChunk :=
  let score := overlap_score lower (set_of (split (lower query))) in
  let positive := filter (fun c => 0 <? score c) chunks in
  let ranked := map fst (sort_ranked (map (fun c => (c, score c)) positive)) in
  let remaining := filter (fun c => negb (0 <? score c)) chunks in
  firstn (Z.to_nat k) (ranked ++ remaining).

End SpecProps.

(** ** [HealthLink/app/services/pdf_processor.py]: download and pipeline *)
Module Fetch.

(** What [requests.get(url, ..., stream=True)] returns: the
    [content-length] header, the non-decoded body as the byte chunks
    [iter_content(chunk_size=8192)] yields, and the message of a
    [RequestException] raised while streaming after those chunks, if any.
    The [content-type] test of [download_pdf] only logs a warning, so the
    header is not modelled. *)
Record HttpResponse := mkHttpResponse {
  content_length : option pstr;
  body : list (list Z);
  body_error : option pstr
}.

(** [requests.get(...)] followed by [response.raise_for_status()]: the
    message of the [RequestException] raised, or the response. *)
Inductive GetOutcome :=
| GetRaises (msg : pstr)
| GetOk (response : HttpResponse).

(** An exception raised inside the [try] of [download_pdf], by the
    [except] clause that catches it. *)
Inductive Raised :=
| RequestException (msg : pstr)
| OtherException (msg : pstr).

(** The [for chunk in response.iter_content(...)] loop. *)
Fixpoint stream_loop (max_file_size : Z) (chunks : list (list Z))
    (stream_error : option pstr) (pdf_content : list Z) (total_size : Z)
    : Raised + list Z :=
  match chunks with
  | [] =>
      match stream_error with
      | Some m => inl (RequestException m)
      | None => inr pdf_content
      end
  | chunk :: rest =>
      match chunk with
      | [] => stream_loop max_file_size rest stream_error pdf_content total_size
      | _ =>
          let total_size := total_size + Z.of_nat (length chunk) in
          if max_file_size <? total_size then
            inl (OtherException (lit "File too large: " ++ str_int total_size ++ lit " bytes"))
          else stream_loop max_file_size rest stream_error (pdf_content ++ chunk) total_size
      end
  end.

Section Pipeline.

(** [requests.get] with [raise_for_status]. *)
Variable http_get : pstr -> GetOutcome.
(** [int(s)]: the [ValueError] message, or the value. *)
Variable py_int : pstr -> pstr + Z.
(** Writing the temporary file, [fitz.open] and [page.get_text()] on every
    page (with the clean-up of the [finally] clause): the page texts, or
    the message of the exception raised. *)
Variable open_pdf : list Z -> pstr + list pstr.

(** The [try] block of [download_pdf]. *)
Definition download_body (p : PDF.PDFProcessor) (url : pstr) : Raised + list Z :=
  match http_get url with
  | GetRaises m => inl (RequestException m)
  | GetOk response =>
      let size_check :=
        match content_length response with
        | None | Some [] => inr tt
        | Some cl =>
            match py_int cl with
            | inl m => inl (OtherException m)
            | inr n =>
                if PDF.max_file_size p <? n
                then inl (OtherException (lit "File too large: " ++ cl ++ lit " bytes"))
                else inr tt
            end
        end in
      match size_check with
      | inl e => inl e
      | inr _ => stream_loop (PDF.max_file_size p) (body response)
                   (body_error response) [] 0
      end
  end.

(** [download_pdf]: the [ValueError] message, or the bytes. *)
Definition download_pdf (p : PDF.PDFProcessor) (url : pstr) : pstr + list Z :=
  match download_body p url with
  | inl (RequestException m) => inl (lit "Failed to download PDF: " ++ m)
  | inl (OtherException m) => inl (lit "Error downloading PDF: " ++ m)
  | inr pdf_content => inr pdf_content
  end.

(** [extract_text_from_pdf] on the downloaded bytes. *)
Definition extract_text (pdf_content : list Z) : pstr + list (pstr * Z) :=
  match open_pdf pdf_content with
  | inl m => inl (lit "Failed to extract text from PDF: " ++ m)
  | inr pages => inr (PDF.extract_text_from_pdf pages)
  end.

(** [process_pdf]: every exception is a [ValueError]; its message, or the
    chunks. *)
Definition process_pdf (p : PDF.PDFProcessor) (url : pstr) : pstr + list DocumentChunk :=
  match download_pdf p url with
  | inl m => inl m
  | inr pdf_content =>
      match extract_text pdf_content with
      | inl m => inl m
      | inr text_pages =>
          match text_pages with
          | [] => inl (lit "No text could be extracted from the PDF")
          | _ =>
              match PDF.chunk_text p text_pages with
              | inl e => inl (lit (exc_msg e))
              | inr chunks =>
                  match chunks with
                  | [] => inl (lit "No valid chunks could be created from the PDF")
                  | _ => inr chunks
                  end
              end
          end
      end
  end.

End Pipeline.

End Fetch.

(** ** [app/core/auth.py] *)
Module Auth.

(** [HTTPException(status_code=..., detail=...)]; the three raised by
    [verify_token] all carry the header [WWW-Authenticate: Bearer]. *)
Record HTTPException := mkHTTPException {
  status_code : Z;
  detail : pstr
}.

(** The [try] block of [verify_token], given [settings.SECRET_API_KEY] and
    [credentials.credentials]. *)
Definition verify_token_body (secret_api_key token : pstr) : HTTPException + pstr :=
  match token with
  | [] => inl (mkHTTPException 401 (lit "Authorization token is required"))
  | _ =>
      if negb (pstr_eqb token secret_api_key)
      then inl (mkHTTPException 401 (lit "Invalid authorization token"))
      else inr token
  end.

(** [verify_token]: [except Exception] also catches the [HTTPException]s
    raised in the [try] block and raises a new one. *)
Definition verify_token (secret_api_key token : pstr) : HTTPException + pstr :=
  match verify_token_body secret_api_key token with
  | inl _ => inl (mkHTTPException 401 (lit "Authorization token verification failed"))
  | inr t => inr t
  end.

End Auth.

(** ** [app/models/schemas.py]: the validator of [QARequest.questions] *)
Module Schemas.

(** The [for i, question in enumerate(v)] loop: the first [ValueError]
    message, if any. *)
Fixpoint check_questions (i : Z) (v : list pstr) : option pstr :=
  match v with
  | [] => None
  | question :: rest =>
      match question, strip question with
      | [], _ | _, [] =>
          Some (lit "Question " ++ str_int (i + 1) ++ lit " cannot be empty")
      | _, stripped =>
          if Z.of_nat (length stripped) <? 3
          then Some (lit "Question " ++ str_int (i + 1) ++
                     lit " must be at least 3 characters long")
          else check_questions (i + 1) rest
      end
  end.

(** [validate_questions]: the [ValueError] message, or the stripped
    questions. *)
Definition validate_questions (v : list pstr) : pstr + list pstr :=
  match v with
  | [] => inl (lit "At least one question is required")
  | _ =>
      if 10 <? Z.of_nat (length v) then inl (lit "Maximum 10 questions allowed")
      else match check_questions 0 v with
           | Some m => inl m
           | None => inr (map strip v)
           end
  end.

End Schemas.

(** ** [get_health_status] ([app/services/qa_service.py]) and [health_check]
    ([HealthLink/app/api/routes.py]) *)
Module Health.

(** The dictionary [get_health_status] returns. *)
Record HealthStatus := mkHealthStatus {
  pdf_processor : pstr;
  embedding_service : pstr;
  gemini_client : pstr;
  overall : pstr
}.

(** [get_health_status], given what [generate_content] does on the test
    prompt. *)
Definition get_health_status (generate_content : pstr -> QA.GenerateOutcome)
    : HealthStatus :=
  let gemini_status :=
    match generate_content (lit "Say 'OK' if you can read this.") with
    | QA.GenText (Some (_ :: _)) => lit "healthy"
    | _ => lit "unhealthy"
    end in
  mkHealthStatus (lit "healthy") (lit "healthy") gemini_status
    (if pstr_eqb gemini_status (lit "healthy") then lit "healthy" else lit "unhealthy").

(** [health_check]: the status code and the content of the response
    ([get_health_status] raises no exception, so the [except] branch is
    never taken). *)
Definition health_check (generate_content : pstr -> QA.GenerateOutcome)
    : Z * HealthStatus :=
  let health_status := get_health_status generate_content in
  if pstr_eqb (overall health_status) (lit "healthy")
  then (200, health_status) else (503, health_status).

End Health.

(** * Theorems *)

(** ** Python runtime facts *)

Lemma lstrip_nil_all_space (s : pstr) :
  lstrip s = [] -> Forall (fun c => isspace c = true) s.
Proof.
  induction s as [|c s IH]; simpl; intros H; [constructor|].
  destruct (isspace c) eqn:E; [constructor; auto | discriminate].
Qed.

Lemma lstrip_cons_not_space (s : pstr) c r :
  lstrip s = c :: r -> isspace c = false.
Proof.
  induction s as [|d s IH]; simpl; [discriminate|].
  destruct (isspace d) eqn:E; [exact IH|].
  intros H; injection H as -> ->; exact E.
Qed.

Lemma lstrip_nil_app (a b : pstr) :
  lstrip (a ++ b) = [] -> lstrip b = [].
Proof.
  induction a as [|c a IH]; simpl; [auto|].
  destruct (isspace c); [exact IH | discriminate].
Qed.

Lemma strip_nil_lstrip_nil (s : pstr) : strip s = [] -> lstrip s = [].
Proof.
  unfold strip. intros H.
  assert (H1 : lstrip (rev (lstrip s)) = []).
  { destruct (lstrip (rev (lstrip s))) as [|x l] eqn:E; [reflexivity|].
    simpl in H. destruct (rev l); discriminate. }
  destruct (lstrip s) as [|c r] eqn:E; [reflexivity|].
  exfalso. simpl in H1. apply lstrip_nil_app in H1. simpl in H1.
  rewrite (lstrip_cons_not_space s c r E) in H1. discriminate.
Qed.

Lemma split_aux_all_space (s : pstr) :
  Forall (fun c => isspace c = true) s -> split_aux [] s = [].
Proof.
  induction 1 as [|c s Hc _ IH]; simpl; [reflexivity|].
  rewrite Hc. exact IH.
Qed.

(** A text that [strip] empties has no words. *)
Lemma strip_nil_split_nil (s : pstr) : strip s = [] -> split s = [].
Proof.
  intros H. apply split_aux_all_space, lstrip_nil_all_space,
    strip_nil_lstrip_nil, H.
Qed.

Lemma seq_strongly_sorted (a n : nat) :
  StronglySorted Z.lt (map Z.of_nat (seq a n)).
Proof.
  revert a; induction n as [|n IH]; intros a; simpl; constructor; [apply IH|].
  apply Forall_forall. intros z Hz. apply in_map_iff in Hz.
  destruct Hz as [m [<- Hm]]. apply in_seq in Hm. lia.
Qed.

Lemma strongly_sorted_lt_NoDup (l : list Z) : StronglySorted Z.lt l -> NoDup l.
Proof.
  induction 1 as [|a l _ IH Hf]; constructor; [|exact IH].
  intros Hin. rewrite Forall_forall in Hf. specialize (Hf a Hin). lia.
Qed.

(** ** Chunking *)
Section Chunking.

(** The counter invariant of [chunk_text]: the ids emitted so far are
    [0 .. n-1] and the counter holds [n]. *)
Definition ids_sequential (chunks : list DocumentChunk) (cid : Z) : Prop :=
  map chunk_id chunks = map Z.of_nat (seq 0 (length chunks)) /\
  cid = Z.of_nat (length chunks).

Lemma ids_sequential_snoc chunks cid c :
  ids_sequential chunks cid -> chunk_id c = cid ->
  ids_sequential (chunks ++ [c]) (cid + 1).
Proof.
  intros [Hm Hc] Hid. unfold ids_sequential.
  rewrite length_app, map_app, Hm. simpl. rewrite Nat.add_1_r, seq_S, map_app.
  simpl. split; [congruence | lia].
Qed.

Lemma window_loop_sequential p words page_num idxs chunks cid :
  ids_sequential chunks cid ->
  let '(chunks', cid') := PDF.window_loop p words page_num idxs chunks cid in
  ids_sequential chunks' cid'.
Proof.
  revert chunks cid; induction idxs as [|i idxs IH]; intros chunks cid H;
    simpl; [exact H|].
  destruct (_ <? 10); apply IH; [exact H|].
  apply ids_sequential_snoc; [exact H | reflexivity].
Qed.

Lemma page_loop_sequential p pages chunks cid cs :
  ids_sequential chunks cid -> PDF.page_loop p pages chunks cid = inr cs ->
  map chunk_id cs = map Z.of_nat (seq 0 (length cs)).
Proof.
  revert chunks cid; induction pages as [|[text page_num] pages IH];
    intros chunks cid Hinv Hrun; simpl in Hrun.
  - injection Hrun as <-. apply Hinv.
  - destruct (range _ _ _) as [e|idxs]; [discriminate|].
    pose proof (window_loop_sequential p (split text) page_num idxs chunks cid Hinv)
      as Hw.
    destruct (PDF.window_loop _ _ _ _ _ _) as [chunks' cid'].
    exact (IH chunks' cid' Hw Hrun).
Qed.

End Chunking.

(** C6: for every configuration and page list, when [chunk_text] returns,
    the emitted [chunk_id]s are exactly [0, 1, ..., n-1] in emission order
    (one global counter across pages, not a per-page numbering); in
    particular they are strictly increasing and pairwise distinct. *)
Theorem chunk_text_ids_global_sequence (p : PDF.PDFProcessor)
    (text_pages : list (pstr * Z)) (cs : list DocumentChunk) :
  PDF.chunk_text p text_pages = inr cs ->
  map chunk_id cs = map Z.of_nat (seq 0 (length cs)) /\
  StronglySorted Z.lt (map chunk_id cs) /\
  NoDup (map chunk_id cs).
Proof.
  unfold PDF.chunk_text. intros H.
  destruct (PDF.page_loop p text_pages [] 0) as [e|cs'] eqn:E; [discriminate|].
  injection H as <-.
  assert (Hs : map chunk_id cs' = map Z.of_nat (seq 0 (length cs'))).
  { apply (page_loop_sequential p text_pages [] 0); [split; reflexivity | exact E]. }
  rewrite Hs. split; [reflexivity|]. split; [apply seq_strongly_sorted|].
  apply strongly_sorted_lt_NoDup, seq_strongly_sorted.
Qed.

Example chunk_text_ids_global_sequence_witness :
  PDF.chunk_text (PDF.mkProcessor 12 2 100)
    [(lit "a b c d e f g h i j k l m n o p", 1); (lit "q r s t u v w x y z a b", 2)] =
  inr [mkChunk (lit "a b c d e f g h i j k l") 0 (Some 1) None;
       mkChunk (lit "q r s t u v w x y z a b") 1 (Some 2) None] /\
  map chunk_id [mkChunk (lit "a b c d e f g h i j k l") 0 (Some 1) None;
                mkChunk (lit "q r s t u v w x y z a b") 1 (Some 2) None] = [0; 1].
Proof.
  assert (H : PDF.chunk_text (PDF.mkProcessor 12 2 100)
    [(lit "a b c d e f g h i j k l m n o p", 1); (lit "q r s t u v w x y z a b", 2)] =
  inr [mkChunk (lit "a b c d e f g h i j k l") 0 (Some 1) None;
       mkChunk (lit "q r s t u v w x y z a b") 1 (Some 2) None]) by reflexivity.
  split; [exact H|].
  destruct (chunk_text_ids_global_sequence _ _ _ H) as [Hs _]. exact Hs.
Defined.

Lemma slice_from_start {A} (w : list A) (j : Z) :
  0 <= j -> slice w 0 j = firstn (Z.to_nat j) w.
Proof.
  intros Hj. unfold slice, slice_index.
  replace (0 <? 0) with false by reflexivity.
  replace (j <? 0) with false by (symmetry; apply Z.ltb_ge; lia).
  rewrite (Z.min_l 0) by lia. rewrite Z.sub_0_r. cbn [Z.to_nat skipn].
  destruct (Z.min_spec j (Z.of_nat (length w))) as [[_ ->]|[Hle ->]];
    [reflexivity|].
  rewrite Nat2Z.id, firstn_all, firstn_all2; [reflexivity|lia].
Qed.

Lemma slice_to_end {A} (w : list A) (i j : Z) :
  0 <= i <= Z.of_nat (length w) -> Z.of_nat (length w) <= j ->
  slice w i j = skipn (Z.to_nat i) w.
Proof.
  intros Hi Hj. unfold slice, slice_index.
  replace (i <? 0) with false by (symmetry; apply Z.ltb_ge; lia).
  replace (j <? 0) with false by (symmetry; apply Z.ltb_ge; lia).
  rewrite (Z.min_l i) by lia. rewrite (Z.min_r j) by lia.
  apply firstn_all2. rewrite length_skipn. lia.
Qed.

Lemma extract_text_nonblank_page (r : pstr) :
  split (PDF.clean_text r) <> [] -> strip (PDF.clean_text r) <> [].
Proof. intros H Hs. apply H, strip_nil_split_nil, Hs. Qed.

(** C5: a document whose pages hold 500 words, nothing (whitespace only)
    and 450 words.  The blank page is dropped by [extract_text_from_pdf];
    with the default 400/50 configuration (step 350) page 1 yields
    [words[0:400]] and [words[350:500]] (150 words, kept), page 3 yields
    [words[0:400]] and [words[350:450]], and the ids are 0, 1, 2, 3. *)
Theorem chunk_text_scenario_500_blank_450 (r1 r2 r3 : pstr) :
  length (split (PDF.clean_text r1)) = 500%nat ->
  strip (PDF.clean_text r2) = [] ->
  length (split (PDF.clean_text r3)) = 450%nat ->
  PDF.extract_text_from_pdf [r1; r2; r3] =
    [(PDF.clean_text r1, 1); (PDF.clean_text r3, 3)] /\
  PDF.chunk_text PDF.default_processor (PDF.extract_text_from_pdf [r1; r2; r3]) =
  inr [mkChunk (join (lit " ") (firstn 400 (split (PDF.clean_text r1)))) 0 (Some 1) None;
       mkChunk (join (lit " ") (skipn 350 (split (PDF.clean_text r1)))) 1 (Some 1) None;
       mkChunk (join (lit " ") (firstn 400 (split (PDF.clean_text r3)))) 2 (Some 3) None;
       mkChunk (join (lit " ") (skipn 350 (split (PDF.clean_text r3)))) 3 (Some 3) None].
Proof.
  intros H1 H2 H3.
  assert (Hx : PDF.extract_text_from_pdf [r1; r2; r3] =
               [(PDF.clean_text r1, 1); (PDF.clean_text r3, 3)]).
  { unfold PDF.extract_text_from_pdf. simpl PDF.extract_pages.
    destruct (strip (PDF.clean_text r1)) eqn:E1.
    { exfalso. apply (extract_text_nonblank_page r1); [|exact E1].
      intros Hn. rewrite Hn in H1. discriminate. }
    rewrite H2.
    destruct (strip (PDF.clean_text r3)) eqn:E3.
    { exfalso. apply (extract_text_nonblank_page r3); [|exact E3].
      intros Hn. rewrite Hn in H3. discriminate. }
    reflexivity. }
  split; [exact Hx|]. rewrite Hx.
  remember (split (PDF.clean_text r1)) as w1 eqn:Ew1.
  remember (split (PDF.clean_text r3)) as w3 eqn:Ew3.
  assert (R1 : range 0 (Z.of_nat 500) (PDF.chunk_size PDF.default_processor -
                 PDF.chunk_overlap PDF.default_processor) = inr [0; 350])
    by reflexivity.
  assert (R3 : range 0 (Z.of_nat 450) (PDF.chunk_size PDF.default_processor -
                 PDF.chunk_overlap PDF.default_processor) = inr [0; 350])
    by reflexivity.
  unfold PDF.chunk_text. cbn [PDF.page_loop]. rewrite <- Ew1, <- Ew3, H1, H3, R1, R3.
  cbn [PDF.window_loop].
  change (0 + PDF.chunk_size PDF.default_processor) with 400.
  change (350 + PDF.chunk_size PDF.default_processor) with 750.
  rewrite (slice_from_start w1), (slice_to_end w1), (slice_from_start w3),
    (slice_to_end w3) by lia.
  rewrite !length_firstn, !length_skipn, H1, H3. reflexivity.
Qed.

Example chunk_text_scenario_500_blank_450_witness :
  let r1 := join (lit " ") (repeat (lit "w") 500) in
  let r2 := lit " " in
  let r3 := join (lit " ") (repeat (lit "w") 450) in
  length (split (PDF.clean_text r1)) = 500%nat /\
  strip (PDF.clean_text r2) = [] /\
  length (split (PDF.clean_text r3)) = 450%nat /\
  (PDF.extract_text_from_pdf [r1; r2; r3] =
     [(PDF.clean_text r1, 1); (PDF.clean_text r3, 3)] /\
   PDF.chunk_text PDF.default_processor (PDF.extract_text_from_pdf [r1; r2; r3]) =
   inr [mkChunk (join (lit " ") (firstn 400 (split (PDF.clean_text r1)))) 0 (Some 1) None;
        mkChunk (join (lit " ") (skipn 350 (split (PDF.clean_text r1)))) 1 (Some 1) None;
        mkChunk (join (lit " ") (firstn 400 (split (PDF.clean_text r3)))) 2 (Some 3) None;
        mkChunk (join (lit " ") (skipn 350 (split (PDF.clean_text r3)))) 3 (Some 3) None]).
Proof.
  cbv zeta.
  split; [vm_compute; reflexivity|].
  split; [vm_compute; reflexivity|].
  split; [vm_compute; reflexivity|].
  apply chunk_text_scenario_500_blank_450; vm_compute; reflexivity.
Defined.

(** ** The orchestrator *)

Lemma question_loop_app lower embed_content generate_content top_k svc qs acc :
  QA.question_loop lower embed_content generate_content top_k svc qs acc =
  acc ++ map (QA.answer_question lower embed_content generate_content top_k svc) qs.
Proof.
  revert acc; induction qs as [|q qs IH]; intros acc; simpl.
  - rewrite app_nil_r. reflexivity.
  - rewrite IH, <- app_assoc. reflexivity.
Qed.

(** C1: once [process_pdf] has returned the chunks, the request completes;
    [answers[i]] is the answer computed for [questions[i]] alone against the
    index built from the chunks (so the lists have the same length and a
    failure on one question changes no other answer); when retrieval raises,
    or the generation call raises, that answer is the not-found sentinel. *)
Theorem process_qa_request_answers_positional lower embed_content generate_content
    process_pdf top_k svc request chunks :
  process_pdf (QA.documents request) = inr chunks ->
  let index := App.create_vector_index embed_content chunks in
  let answer := QA.answer_question lower embed_content generate_content top_k index in
  fst (QA.process_qa_request lower embed_content generate_content process_pdf top_k
         svc request) =
    inr (QA.mkResponse (map answer (QA.questions request))) /\
  length (map answer (QA.questions request)) = length (QA.questions request) /\
  (forall i, nth_error (map answer (QA.questions request)) i =
             option_map answer (nth_error (QA.questions request) i)) /\
  (forall q e, App.get_context_for_question lower embed_content index q top_k = inl e ->
               answer q = QA.not_found) /\
  (forall q context,
      App.get_context_for_question lower embed_content index q top_k = inr context ->
      generate_content (QA.build_prompt q context) = QA.GenRaises ->
      answer q = QA.not_found).
Proof.
  intros Hpdf index answer.
  split; [|split; [|split; [|split]]].
  - unfold QA.process_qa_request. rewrite Hpdf. simpl.
    rewrite question_loop_app. reflexivity.
  - apply length_map.
  - intros i. apply nth_error_map.
  - intros q e He. unfold answer, QA.answer_question. rewrite He. reflexivity.
  - intros q context Hc Hg. unfold answer, QA.answer_question. rewrite Hc.
    unfold QA.generate_answer. rewrite Hg. reflexivity.
Qed.

(** The scenario of the spec: the generation call raises for question 2 of
    3; the response still has 3 answers and only the second is the
    sentinel. *)
Example process_qa_request_answers_positional_witness :
  let lower := map (fun c => if (65 <=? c) && (c <=? 90) then c + 32 else c) in
  let embed_content := fun _ _ : pstr => @None (list float) in
  let generate_content := fun prompt : pstr =>
    if mem (lit "two?") (split prompt) then QA.GenRaises
    else QA.GenText (Some (lit "Answer: yes")) in
  let chunks := [mkChunk (lit "one two three") 0 (Some 1) None] in
  let process_pdf := fun _ : pstr => @inr exc _ chunks in
  let request := QA.mkRequest (lit "https://x.org/a.pdf")
                   [lit "one?"; lit "two?"; lit "three?"] in
  process_pdf (QA.documents request) = inr chunks /\
  fst (QA.process_qa_request lower embed_content generate_content process_pdf 5
         App.empty_service request) =
    inr (QA.mkResponse [lit "yes"; QA.not_found; lit "yes"]).
Proof.
  intros lower embed_content generate_content chunks process_pdf request.
  split; [reflexivity|].
  destruct (process_qa_request_answers_positional lower embed_content generate_content
              process_pdf 5 App.empty_service request chunks eq_refl) as [H _].
  rewrite H. vm_compute. reflexivity.
Defined.

(** C8: on every path (the exception of [process_pdf] re-raised, or the
    normal return) the embedding service ends with no chunks and no
    embeddings, whatever its state before. *)
Theorem process_qa_request_clears_index lower embed_content generate_content
    process_pdf top_k svc request :
  let run := QA.process_qa_request lower embed_content generate_content process_pdf
               top_k svc request in
  snd run = App.empty_service /\
  match process_pdf (QA.documents request) with
  | inl e => fst run = inl e
  | inr _ => exists response, fst run = inr response
  end.
Proof.
  intros run. unfold run, QA.process_qa_request.
  destruct (process_pdf (QA.documents request)) as [e|chunks]; simpl.
  - split; reflexivity.
  - split; [reflexivity | eexists; reflexivity].
Qed.

(** ** The two retrieval implementations *)

(** C9: with no embeddings stored, the search of [app] and the search of
    [HealthLink] return the same chunks for every query and [top_k] on a
    non-empty chunk list. *)
Theorem app_search_without_embeddings_is_healthlink_search lower embed_content
    (chunks : list DocumentChunk) query top_k :
  chunks <> [] ->
  App.search_similar_chunks lower embed_content (App.mkService chunks []) query top_k =
  HealthLink.search_similar_chunks lower chunks query top_k.
Proof.
  intros Hne. destruct chunks as [|c cs]; [contradiction|]. reflexivity.
Qed.

Example app_search_without_embeddings_is_healthlink_search_witness :
  let chunks := [mkChunk (lit "alpha beta") 0 (Some 1) None;
                 mkChunk (lit "gamma delta") 1 (Some 2) None] in
  chunks <> [] /\
  App.search_similar_chunks (fun s => s) (fun _ _ => None) (App.mkService chunks [])
    (lit "delta") 2 =
  HealthLink.search_similar_chunks (fun s => s) chunks (lit "delta") 2.
Proof.
  intros chunks. split; [discriminate|].
  apply app_search_without_embeddings_is_healthlink_search. discriminate.
Defined.

(** ** Building the index *)

(** C3 (counterexample): building on an empty chunk list does not fail in
    either implementation. *)
Lemma create_vector_index_empty_succeeds :
  App.create_vector_index (fun _ _ => None) [] = App.empty_service /\
  HealthLink.create_vector_index [] = inr [].
Proof. split; reflexivity. Qed.

(** C3 (amended): building on an empty chunk list succeeds in both
    implementations and leaves an empty index; every later search on it
    raises [ValueError]. *)
Theorem create_vector_index_empty_then_search_raises lower embed_content query top_k :
  App.create_vector_index embed_content [] = App.empty_service /\
  (exists e, App.search_similar_chunks lower embed_content
               (App.create_vector_index embed_content []) query top_k = inl e) /\
  HealthLink.create_vector_index [] = inr [] /\
  (exists e, HealthLink.search_similar_chunks lower [] query top_k = inl e).
Proof.
  split; [reflexivity|]. split; [eexists; reflexivity|].
  split; [reflexivity | eexists; reflexivity].
Qed.

(** C2 (counterexample): the provider embeds chunk "a" and fails on chunk
    "b"; the index keeps the unit vector of "a" and the zero vector for
    "b", and still takes the semantic branch. *)
Lemma create_vector_index_partially_semantic :
  let embed_content := fun text _ : pstr =>
    if pstr_eqb text (lit "a") then Some [1%float; 0%float] else None in
  let index := App.create_vector_index embed_content
                 [mkChunk (lit "a") 0 (Some 1) None; mkChunk (lit "b") 1 (Some 1) None] in
  App.embeddings index = [[1%float; 0%float]; App.zero_vector] /\
  length (App.embeddings index) = length (App.chunks index) /\
  ~ SpecProps.index_consistent index.
Proof.
  intros embed_content index.
  assert (He : App.embeddings index = [[1%float; 0%float]; App.zero_vector])
    by (unfold index, embed_content; vm_compute; reflexivity).
  split; [exact He|]. split; [reflexivity|].
  unfold SpecProps.index_consistent. rewrite He.
  intros [[_ H]|H]; inversion H as [|v l Hv Hl]; subst.
  - inversion Hl as [|w l' Hw _]. vm_compute in Hw. discriminate.
  - vm_compute in Hv. discriminate.
Qed.

(** C2 (amended): the built index holds one embedding per chunk: the
    L2-normalised provider vector when the provider returns a non-empty
    vector for that chunk, the 768-dimensional zero vector otherwise.  A
    failure for one chunk never switches the index to keyword mode: the
    embedding list is empty only for an empty chunk list. *)
Theorem create_vector_index_one_embedding_per_chunk embed_content chunks :
  let index := App.create_vector_index embed_content chunks in
  App.chunks index = chunks /\
  length (App.embeddings index) = length chunks /\
  (App.embeddings index = [] <-> chunks = []) /\
  (forall i, nth_error (App.embeddings index) i =
     option_map (fun c => match embed_content (content c) (lit "retrieval_document") with
                          | Some ((_ :: _) as e) => App.normalize e
                          | _ => App.zero_vector
                          end) (nth_error chunks i)).
Proof.
  intros index. unfold index, App.create_vector_index. simpl.
  split; [reflexivity|]. split; [apply length_map|]. split.
  - destruct chunks; simpl; split; congruence.
  - intros i. apply nth_error_map.
Qed.

(** ** Keyword search *)

Lemma insert_rev_perm {A} (lt : A -> A -> bool) x l :
  Permutation (insert_rev lt x l) (x :: l).
Proof.
  induction l as [|y l IH]; simpl; [reflexivity|].
  destruct (lt x y); [|reflexivity].
  rewrite IH. apply perm_swap.
Qed.

Lemma sort_reverse_perm {A} (lt : A -> A -> bool) l :
  Permutation (sort_reverse lt l) l.
Proof.
  induction l as [|x l IH]; simpl; [reflexivity|].
  rewrite insert_rev_perm, IH. reflexivity.
Qed.

Lemma match_list_nonempty {A B} (l : list A) (x y : B) :
  l <> [] -> match l with [] => x | _ :: _ => y end = y.
Proof. destruct l; [contradiction | reflexivity]. Qed.

Lemma take_nonneg {A} (k : Z) (l : list A) :
  0 <= k -> take k l = firstn (Z.to_nat k) l.
Proof. intros Hk. apply slice_from_start, Hk. Qed.

Lemma filter_partition_perm {A} (f : A -> bool) l :
  Permutation (filter f l ++ filter (fun x => negb (f x)) l) l.
Proof.
  induction l as [|x l IH]; simpl; [reflexivity|].
  destruct (f x); simpl; [constructor; exact IH|].
  rewrite <- Permutation_middle. constructor. exact IH.
Qed.

Lemma firstn_NoDup {A} n (l : list A) : NoDup l -> NoDup (firstn n l).
Proof.
  intros H. rewrite <- (firstn_skipn n l) in H. exact (NoDup_app_remove_r _ _ H).
Qed.

Lemma firstn_incl {A} n (l : list A) : incl (firstn n l) l.
Proof.
  intros x Hx. rewrite <- (firstn_skipn n l). apply in_or_app. left. exact Hx.
Qed.

Lemma strongly_sorted_id_inj (chunks : list DocumentChunk) c d :
  StronglySorted (fun a b => chunk_id a < chunk_id b) chunks ->
  In c chunks -> In d chunks -> chunk_id c = chunk_id d -> c = d.
Proof.
  induction 1 as [|x l _ IH Hf]; simpl; [tauto|].
  rewrite Forall_forall in Hf.
  intros [<-|Hc] [<-|Hd] Heq; auto.
  - specialize (Hf d Hd). lia.
  - specialize (Hf c Hc). lia.
Qed.

Lemma strongly_sorted_ids_NoDup (chunks : list DocumentChunk) :
  StronglySorted (fun a b => chunk_id a < chunk_id b) chunks ->
  NoDup (map chunk_id chunks).
Proof.
  induction 1 as [|x l _ IH Hf]; simpl; constructor; [|exact IH].
  rewrite in_map_iff. intros [y [Hy Hin]].
  rewrite Forall_forall in Hf. specialize (Hf y Hin). lia.
Qed.

Lemma strongly_sorted_filter {A} (R : A -> A -> Prop) f l :
  StronglySorted R l -> StronglySorted R (filter f l).
Proof.
  induction 1 as [|x l _ IH Hf]; simpl; [constructor|].
  destruct (f x); [|exact IH].
  constructor; [exact IH|].
  rewrite Forall_forall in *. intros y Hy. apply filter_In in Hy.
  apply Hf, Hy.
Qed.

Lemma strongly_sorted_map {A B} (R : B -> B -> Prop) (f : A -> B) l :
  StronglySorted (fun a b => R (f a) (f b)) l -> StronglySorted R (map f l).
Proof.
  induction 1 as [|x l _ IH Hf]; simpl; constructor; [exact IH|].
  rewrite Forall_forall in *. intros y Hy. apply in_map_iff in Hy.
  destruct Hy as [z [<- Hz]]. apply Hf, Hz.
Qed.

(** On a list whose [chunk_id]s all exceed that of [x], the stable
    insertion of the code and the tie-breaking insertion of the spec agree. *)
Lemma insert_rev_ranked (x : DocumentChunk * Z) m :
  Forall (fun y => chunk_id (fst x) < chunk_id (fst y)) m ->
  insert_rev (fun a b => snd a <? snd b) x m = SpecProps.insert_ranked x m.
Proof.
  induction 1 as [|y m Hy _ IH]; simpl; [reflexivity|].
  unfold SpecProps.ranks_before.
  replace (chunk_id (fst y) <? chunk_id (fst x)) with false
    by (symmetry; apply Z.ltb_ge; lia).
  rewrite andb_false_r, orb_false_r.
  destruct (snd x <? snd y); [rewrite IH|]; reflexivity.
Qed.

(** Python's stable descending sort on a list in ascending [chunk_id]
    order breaks ties by ascending [chunk_id]. *)
Lemma sort_reverse_ranked (l : list (DocumentChunk * Z)) :
  StronglySorted (fun a b => chunk_id (fst a) < chunk_id (fst b)) l ->
  sort_reverse (fun a b => snd a <? snd b) l = SpecProps.sort_ranked l.
Proof.
  induction 1 as [|x l _ IH Hf]; simpl; [reflexivity|].
  rewrite <- IH. apply insert_rev_ranked.
  rewrite Forall_forall in *. intros y Hy. apply Hf.
  apply (Permutation_in _ (sort_reverse_perm (fun a b => snd a <? snd b) l)), Hy.
Qed.

Section KeywordSearch.

Variable lower : pstr -> pstr.

Lemma score_loop_filter qw chunks :
  HealthLink.score_loop lower qw chunks =
  map (fun c => (c, SpecProps.overlap_score lower qw c))
    (filter (fun c => 0 <? SpecProps.overlap_score lower qw c) chunks).
Proof.
  induction chunks as [|c chunks IH]; simpl; [reflexivity|].
  change (Z.of_nat (intersection_len qw (set_of (split (lower (content c))))))
    with (SpecProps.overlap_score lower qw c).
  destruct (0 <? SpecProps.overlap_score lower qw c); simpl; rewrite IH; reflexivity.
Qed.

Lemma fill_loop_firstn used (k : Z) pool acc :
  0 <= k ->
  HealthLink.fill_loop used k pool acc =
  acc ++ firstn (Z.to_nat k - length acc)
           (filter (fun c => negb (existsb (Z.eqb (chunk_id c)) used)) pool).
Proof.
  intros Hk. revert acc; induction pool as [|c pool IH]; intros acc; simpl.
  - rewrite firstn_nil, app_nil_r. reflexivity.
  - destruct (negb (existsb (Z.eqb (chunk_id c)) used)) eqn:Eu; simpl.
    + destruct (Z.of_nat (length acc) <? k) eqn:El.
      * apply Z.ltb_lt in El. rewrite IH, length_app, <- app_assoc. simpl.
        replace (Z.to_nat k - length acc)%nat with (S (Z.to_nat k - (length acc + 1)))
          by lia.
        reflexivity.
      * apply Z.ltb_ge in El. rewrite IH.
        replace (Z.to_nat k - length acc)%nat with 0%nat by lia. reflexivity.
    + apply IH.
Qed.

End KeywordSearch.

(** C4 (amended): on a non-empty index whose chunks have unique [chunk_id]s
    in ascending order, and for [top_k >= 0], the keyword search returns the
    chunks of positive overlap ranked by descending overlap with ties by
    ascending [chunk_id], then the other chunks in ascending [chunk_id]
    order, truncated to [min(top_k, pool size)] elements; the result has no
    duplicate and only chunks of the index. *)
Theorem keyword_search_ranked_then_padded lower chunks query top_k :
  chunks <> [] -> 0 <= top_k ->
  StronglySorted (fun a b => chunk_id a < chunk_id b) chunks ->
  HealthLink.search_similar_chunks lower chunks query top_k =
    inr (SpecProps.keyword_topk lower chunks query top_k) /\
  length (SpecProps.keyword_topk lower chunks query top_k) =
    Nat.min (Z.to_nat top_k) (length chunks) /\
  NoDup (map chunk_id (SpecProps.keyword_topk lower chunks query top_k)) /\
  incl (SpecProps.keyword_topk lower chunks query top_k) chunks.
Proof.
  intros Hne Hk Hs.
  set (score := SpecProps.overlap_score lower (set_of (split (lower query)))).
  set (P := filter (fun c => 0 <? score c) chunks).
  set (F := filter (fun c => negb (0 <? score c)) chunks).
  set (S := map (fun c => (c, score c)) P).
  set (R := map fst (SpecProps.sort_ranked S)).
  set (K := Z.to_nat top_k).
  assert (Hspec : SpecProps.keyword_topk lower chunks query top_k = firstn K (R ++ F))
    by reflexivity.
  assert (HsS : StronglySorted (fun a b => chunk_id (fst a) < chunk_id (fst b)) S).
  { apply (strongly_sorted_map (fun a b => chunk_id (fst a) < chunk_id (fst b))).
    apply strongly_sorted_filter, Hs. }
  assert (Hsort : sort_reverse (fun a b => snd a <? snd b) S = SpecProps.sort_ranked S)
    by (apply sort_reverse_ranked, HsS).
  assert (HRP : Permutation R P).
  { unfold R. rewrite <- Hsort.
    eapply Permutation_trans; [apply Permutation_map, sort_reverse_perm|].
    unfold S. rewrite map_map. simpl. rewrite map_id. reflexivity. }
  assert (Hperm : Permutation (R ++ F) chunks).
  { rewrite HRP. apply filter_partition_perm. }
  assert (Hused : filter (fun c => negb (existsb (Z.eqb (chunk_id c)) (map chunk_id R)))
                    chunks = F).
  { apply filter_ext_in. intros c Hc. f_equal.
    destruct (0 <? score c) eqn:Ec.
    - apply existsb_exists. exists (chunk_id c). split; [|apply Z.eqb_refl].
      apply in_map. apply (Permutation_in _ (Permutation_sym HRP)).
      apply filter_In. split; assumption.
    - apply Bool.not_true_is_false. intros He.
      apply existsb_exists in He. destruct He as [i [Hi Heq]].
      apply Z.eqb_eq in Heq. apply in_map_iff in Hi. destruct Hi as [d [Hd HdR]].
      apply (Permutation_in _ HRP) in HdR. apply filter_In in HdR.
      destruct HdR as [HdC Hdpos].
      rewrite (strongly_sorted_id_inj chunks c d Hs Hc HdC) in Ec by congruence.
      congruence. }
  assert (Hlen : length (R ++ F) = length chunks) by apply (Permutation_length Hperm).
  rewrite Hspec. split; [|split; [|split]].
  - unfold HealthLink.search_similar_chunks.
    rewrite (match_list_nonempty chunks) by exact Hne.
    rewrite score_loop_filter. fold score. fold P. fold S. rewrite Hsort.
    rewrite !(take_nonneg top_k) by exact Hk. fold K.
    rewrite <- firstn_map. fold R. f_equal.
    destruct (Nat.le_gt_cases K (length R)) as [HKle|HKgt].
    + assert (HlK : length (firstn K R) = K) by (rewrite length_firstn; lia).
      rewrite HlK.
      replace (Z.of_nat K <? top_k) with false
        by (symmetry; apply Z.ltb_ge; unfold K; lia).
      rewrite firstn_firstn, Nat.min_id, firstn_app.
      replace (K - length R)%nat with 0%nat by lia.
      rewrite app_nil_r. reflexivity.
    + rewrite (firstn_all2 R) by lia.
      replace (Z.of_nat (length R) <? top_k) with true
        by (symmetry; apply Z.ltb_lt; unfold K in HKgt; lia).
      rewrite fill_loop_firstn by exact Hk. fold K. rewrite Hused.
      rewrite !firstn_app, firstn_firstn, Nat.min_id, (firstn_all2 R) by lia.
      reflexivity.
  - rewrite length_firstn, Hlen. reflexivity.
  - rewrite <- firstn_map. apply firstn_NoDup.
    apply (Permutation_NoDup (Permutation_map chunk_id (Permutation_sym Hperm))).
    apply strongly_sorted_ids_NoDup, Hs.
  - intros x Hx. apply (Permutation_in _ Hperm). apply (firstn_incl K), Hx.
Qed.

(** Ties at score 2 keep ascending [chunk_id] order; chunk 3 (score 0)
    is the padding. *)
Example keyword_search_ranked_then_padded_witness :
  let chunks := [mkChunk (lit "apple banana") 0 (Some 1) None;
                 mkChunk (lit "banana cherry") 1 (Some 1) None;
                 mkChunk (lit "Apple BANANA") 2 (Some 2) None;
                 mkChunk (lit "zzz") 3 (Some 2) None] in
  let lower := map (fun c => if (65 <=? c) && (c <=? 90) then c + 32 else c) in
  chunks <> [] /\ 0 <= 4 /\
  StronglySorted (fun a b => chunk_id a < chunk_id b) chunks /\
  HealthLink.search_similar_chunks lower chunks (lit "banana apple") 4 =
    inr (SpecProps.keyword_topk lower chunks (lit "banana apple") 4) /\
  map chunk_id (SpecProps.keyword_topk lower chunks (lit "banana apple") 4) =
    [0; 2; 1; 3].
Proof.
  intros chunks lower.
  assert (Hs : StronglySorted (fun a b => chunk_id a < chunk_id b) chunks)
    by (repeat constructor; simpl; lia).
  split; [discriminate|]. split; [lia|]. split; [exact Hs|]. split.
  - apply (keyword_search_ranked_then_padded lower chunks (lit "banana apple") 4);
      [discriminate | lia | exact Hs].
  - vm_compute. reflexivity.
Defined.

(** C4 (counterexample): an index built from no chunks (which
    [create_vector_index] accepts) has its ids vacuously in ascending order,
    yet the search raises instead of returning the empty list. *)
Lemma keyword_search_empty_index_raises :
  StronglySorted (fun a b => chunk_id a < chunk_id b) [] /\
  HealthLink.create_vector_index [] = inr [] /\
  SpecProps.keyword_topk (fun s => s) [] (lit "query") 5 = [] /\
  HealthLink.search_similar_chunks (fun s => s) [] (lit "query") 5 =
    inl (ValueError
      "Failed to search similar chunks: Text index not initialized. Create index first.").
Proof. split; [constructor|]. split; [reflexivity|]. split; reflexivity. Qed.

(** ** Context assembly *)

Lemma join_cons (sep w : pstr) ws :
  join sep (w :: ws) = w ++ concat (map (fun v => sep ++ v) ws).
Proof.
  revert w; induction ws as [|v ws IH]; intros w.
  - simpl. rewrite app_nil_r. reflexivity.
  - change (join sep (w :: v :: ws)) with (w ++ sep ++ join sep (v :: ws)).
    rewrite IH. simpl. rewrite <- !app_assoc. reflexivity.
Qed.

(** C7 (counterexample): a chunk whose page number is 0 is tagged
    "[Unknown Page]", not "[Page 0]". *)
Lemma assemble_context_page_zero_unknown :
  HealthLink.assemble_context [mkChunk (lit "text") 0 (Some 0) None] =
    lit "[Unknown Page] text" /\
  HealthLink.assemble_context [mkChunk (lit "text") 0 (Some 0) None] <>
    lit "[Page 0] text".
Proof. split; [reflexivity | vm_compute; discriminate]. Qed.

(** C7 (amended): context assembly depends on the retrieved chunks only (in
    both implementations the context is the assembly of the search result);
    the empty list gives the fixed sentinel; a non-empty list gives the
    chunks in retrieval order, each as its tag, a space and its content,
    separated by a blank line; the tag is "[Page N]" for a non-zero page
    number [N] and "[Unknown Page]" for an absent page number or 0. *)
Theorem assemble_context_retrieval_order :
  HealthLink.assemble_context [] = lit "No relevant context found in the document." /\
  (forall c cs, HealthLink.assemble_context (c :: cs) =
     (HealthLink.page_info c ++ lit " " ++ content c) ++
     concat (map (fun d => [10; 10] ++ HealthLink.page_info d ++ lit " " ++ content d) cs)) /\
  (forall c n, page_number c = Some n -> n <> 0 ->
     HealthLink.page_info c = lit "[Page " ++ str_int n ++ lit "]") /\
  (forall c, page_number c = None \/ page_number c = Some 0 ->
     HealthLink.page_info c = lit "[Unknown Page]") /\
  (forall lower self question top_k similar,
     HealthLink.search_similar_chunks lower self question top_k = inr similar ->
     HealthLink.get_context_for_question lower self question top_k =
       inr (HealthLink.assemble_context similar)) /\
  (forall lower embed_content self question top_k similar,
     App.search_similar_chunks lower embed_content self question top_k = inr similar ->
     App.get_context_for_question lower embed_content self question top_k =
       inr (HealthLink.assemble_context similar)).
Proof.
  split; [reflexivity|]. split; [|split; [|split; [|split]]].
  - intros c cs.
    change (HealthLink.assemble_context (c :: cs)) with
      (join [10; 10] (map (fun chunk => HealthLink.page_info chunk ++ lit " " ++
                                         content chunk) (c :: cs))).
    cbn [map]. rewrite join_cons, map_map. reflexivity.
  - intros c n Hp Hn. unfold HealthLink.page_info. rewrite Hp.
    apply Z.eqb_neq in Hn. rewrite Hn. reflexivity.
  - intros c [Hp|Hp]; unfold HealthLink.page_info; rewrite Hp; reflexivity.
  - intros lower self question top_k similar Hs.
    unfold HealthLink.get_context_for_question. rewrite Hs. reflexivity.
  - intros lower embed_content self question top_k similar Hs.
    unfold App.get_context_for_question. rewrite Hs. reflexivity.
Qed.

Example assemble_context_retrieval_order_witness :
  let c5 := mkChunk (lit "second") 5 (Some 2) None in
  let c1 := mkChunk (lit "first") 1 None None in
  HealthLink.page_info c5 = lit "[Page 2]" /\
  HealthLink.page_info c1 = lit "[Unknown Page]" /\
  HealthLink.assemble_context [c5; c1] =
    lit "[Page 2] second" ++ [10; 10] ++ lit "[Unknown Page] first".
Proof.
  intros c5 c1.
  destruct assemble_context_retrieval_order as [_ [Hcons [Hpage [Hunk _]]]].
  assert (H5 : HealthLink.page_info c5 = lit "[Page 2]")
    by (rewrite (Hpage c5 2 eq_refl); [reflexivity | discriminate]).
  assert (H1 : HealthLink.page_info c1 = lit "[Unknown Page]")
    by (apply Hunk; left; reflexivity).
  split; [exact H5|]. split; [exact H1|].
  rewrite Hcons. cbn [map concat]. rewrite H5, H1. vm_compute. reflexivity.
Defined.

(** ** Page numbers of the pipeline's chunks *)

Lemma extract_pages_in pages k t n :
  In (t, n) (PDF.extract_pages pages k) ->
  k + 1 <= n <= k + Z.of_nat (length pages) /\
  exists r, nth_error pages (Z.to_nat (n - k - 1)) = Some r /\ t = PDF.clean_text r.
Proof.
  revert k; induction pages as [|r pages IH]; intros k H; simpl in H; [contradiction|].
  assert (Hrest : In (t, n) (PDF.extract_pages pages (k + 1)) ->
            k + 1 <= n <= k + Z.of_nat (length (r :: pages)) /\
            exists r', nth_error (r :: pages) (Z.to_nat (n - k - 1)) = Some r' /\
                       t = PDF.clean_text r').
  { intros Hin. destruct (IH (k + 1) Hin) as [Hb [r' [Hr' Ht]]].
    simpl length. split; [lia|]. exists r'. split; [|exact Ht].
    replace (Z.to_nat (n - k - 1)) with (S (Z.to_nat (n - (k + 1) - 1))) by lia.
    exact Hr'. }
  destruct (strip (PDF.clean_text r)); [apply Hrest, H|].
  destruct H as [Heq|Hin]; [|apply Hrest, Hin].
  injection Heq as <- <-. simpl length. split; [lia|].
  exists r. split; [|reflexivity].
  replace (Z.to_nat (k + 1 - k - 1)) with 0%nat by lia. reflexivity.
Qed.

Lemma window_loop_pages p words page_num idxs chunks cid c :
  In c (fst (PDF.window_loop p words page_num idxs chunks cid)) ->
  In c chunks \/
  (page_number c = Some page_num /\
   exists i, content c = join (lit " ") (slice words i (i + PDF.chunk_size p))).
Proof.
  revert chunks cid; induction idxs as [|i idxs IH]; intros chunks cid H;
    simpl in H; [left; exact H|].
  destruct (_ <? 10); [apply IH in H; exact H|].
  apply IH in H. destruct H as [H|H]; [|right; exact H].
  apply in_app_or in H. destruct H as [H|[<-|[]]]; [left; exact H|].
  right. split; [reflexivity|]. exists i. reflexivity.
Qed.

Lemma page_loop_pages p pages chunks cid cs c :
  PDF.page_loop p pages chunks cid = inr cs -> In c cs ->
  In c chunks \/
  exists t n i, In (t, n) pages /\ page_number c = Some n /\
    content c = join (lit " ") (slice (split t) i (i + PDF.chunk_size p)).
Proof.
  revert chunks cid; induction pages as [|[text page_num] pages IH];
    intros chunks cid Hrun Hc; simpl in Hrun.
  - injection Hrun as <-. left. exact Hc.
  - destruct (range _ _ _) as [e|idxs]; [discriminate|].
    pose proof (window_loop_pages p (split text) page_num idxs chunks cid c) as Hw.
    destruct (PDF.window_loop _ _ _ _ _ _) as [chunks' cid'].
    destruct (IH chunks' cid' Hrun Hc) as [Hin|[t [n [i [Hin [Hp Hct]]]]]].
    + destruct (Hw Hin) as [H|[Hp [i Hct]]]; [left; exact H|].
      right. exists text, page_num, i. split; [left; reflexivity | split; assumption].
    + right. exists t, n, i. split; [right; exact Hin | split; assumption].
Qed.

Lemma page_info_positive c n :
  page_number c = Some n -> 1 <= n ->
  HealthLink.page_info c = lit "[Page " ++ str_int n ++ lit "]".
Proof.
  intros Hp Hn. unfold HealthLink.page_info. rewrite Hp.
  replace (n =? 0) with false by (symmetry; apply Z.eqb_neq; lia). reflexivity.
Qed.

Lemma slice_incl {A} (l : list A) i j : incl (slice l i j) l.
Proof.
  intros x Hx. unfold slice in Hx. apply firstn_incl in Hx.
  rewrite <- (firstn_skipn (Z.to_nat (slice_index (Z.of_nat (length l)) i)) l).
  apply in_or_app. right. exact Hx.
Qed.

Lemma fill_loop_incl used k pool acc :
  incl (HealthLink.fill_loop used k pool acc) (acc ++ pool).
Proof.
  revert acc; induction pool as [|c pool IH]; intros acc x Hx; simpl in Hx.
  - rewrite app_nil_r. exact Hx.
  - destruct (_ && _); apply IH in Hx; apply in_app_or in Hx;
      apply in_or_app; simpl.
    + destruct Hx as [Hx|Hx]; [apply in_app_or in Hx; destruct Hx as [Hx|[<-|[]]]|];
        auto.
    + destruct Hx as [Hx|Hx]; auto.
Qed.

(** The keyword search only returns chunks of its index. *)
Lemma search_similar_chunks_incl lower chunks query top_k similar :
  HealthLink.search_similar_chunks lower chunks query top_k = inr similar ->
  incl similar chunks.
Proof.
  intros H. assert (Hne : chunks <> []) by (intros ->; discriminate H).
  unfold HealthLink.search_similar_chunks in H.
  rewrite (match_list_nonempty chunks) in H by exact Hne.
  injection H as <-.
  set (sim := map fst (take top_k (sort_reverse (fun a b => snd a <? snd b)
                (HealthLink.score_loop lower (set_of (split (lower query))) chunks)))).
  assert (Hsim : incl sim chunks).
  { intros x Hx. apply in_map_iff in Hx. destruct Hx as [[y s] [<- Hy]].
    apply slice_incl in Hy.
    apply (Permutation_in _ (sort_reverse_perm (fun a b => snd a <? snd b) _)) in Hy.
    rewrite score_loop_filter in Hy. apply in_map_iff in Hy.
    destruct Hy as [z [Hz Hin]]. injection Hz as -> _.
    apply filter_In in Hin. apply Hin. }
  intros x Hx. apply slice_incl in Hx.
  destruct (_ <? top_k); [|apply Hsim, Hx].
  apply fill_loop_incl, in_app_or in Hx. destruct Hx as [Hx|Hx]; [apply Hsim|]; exact Hx.
Qed.

(** C10: every chunk of the HealthLink pipeline ([extract_text_from_pdf]
    then [chunk_text]) carries [Some n] as its page number, where [n] is the
    1-based position of its source page among the raw pages (blank pages
    included) and the chunk's text is a word window of that page; so its tag
    is ["[Page n]"]. Since searching the index built from these chunks only
    returns chunks of the index, every context assembled from it tags each
    chunk with ["[Page n]"], and never with ["[Unknown Page]"]. *)
Theorem pipeline_chunks_tagged_with_source_page p pages cs :
  PDF.chunk_text p (PDF.extract_text_from_pdf pages) = inr cs ->
  Forall (fun c => exists n r i,
            page_number c = Some n /\ 1 <= n <= Z.of_nat (length pages) /\
            nth_error pages (Z.to_nat (n - 1)) = Some r /\
            content c = join (lit " ")
                          (slice (split (PDF.clean_text r)) i (i + PDF.chunk_size p)) /\
            HealthLink.page_info c = lit "[Page " ++ str_int n ++ lit "]") cs /\
  (forall lower idx question top_k ctx,
     HealthLink.create_vector_index cs = inr idx ->
     HealthLink.get_context_for_question lower idx question top_k = inr ctx ->
     exists similar, ctx = HealthLink.assemble_context similar /\ incl similar cs /\
       Forall (fun c => exists n, 1 <= n /\
                 HealthLink.page_info c = lit "[Page " ++ str_int n ++ lit "]") similar).
Proof.
  intros Hrun.
  assert (Hcs : Forall (fun c => exists n r i,
            page_number c = Some n /\ 1 <= n <= Z.of_nat (length pages) /\
            nth_error pages (Z.to_nat (n - 1)) = Some r /\
            content c = join (lit " ")
                          (slice (split (PDF.clean_text r)) i (i + PDF.chunk_size p)) /\
            HealthLink.page_info c = lit "[Page " ++ str_int n ++ lit "]") cs).
  { unfold PDF.chunk_text in Hrun.
    destruct (PDF.page_loop p _ [] 0) as [e|cs'] eqn:Hloop; [discriminate|].
    injection Hrun as <-. apply Forall_forall. intros c Hc.
    destruct (page_loop_pages _ _ _ _ _ c Hloop Hc) as [[]|[t [n [i [Hin [Hp Hct]]]]]].
    apply extract_pages_in in Hin. destruct Hin as [Hb [r [Hr ->]]].
    exists n, r, i. rewrite Z.sub_0_r in Hr.
    split; [exact Hp|]. split; [lia|]. split; [exact Hr|]. split; [exact Hct|].
    apply page_info_positive; [exact Hp | lia]. }
  split; [exact Hcs|].
  intros lower idx question top_k ctx Hidx Hctx.
  unfold HealthLink.create_vector_index in Hidx. injection Hidx as <-.
  unfold HealthLink.get_context_for_question in Hctx.
  destruct (HealthLink.search_similar_chunks lower cs question top_k)
    as [e|similar] eqn:Hs; [discriminate|].
  injection Hctx as <-. exists similar. split; [reflexivity|].
  pose proof (search_similar_chunks_incl _ _ _ _ _ Hs) as Hincl.
  split; [exact Hincl|].
  apply Forall_forall. intros c Hc.
  rewrite Forall_forall in Hcs. destruct (Hcs c (Hincl c Hc)) as [n [r [i [Hp [Hb [_ [_ Htag]]]]]]].
  exists n. split; [lia | exact Htag].
Qed.

Example pipeline_chunks_tagged_with_source_page_witness :
  PDF.chunk_text (PDF.mkProcessor 12 2 100)
    (PDF.extract_text_from_pdf
       [lit "a b c d e f g h i j k l"; lit "  "; lit "m n o p q r s t u v w x"]) =
  inr [mkChunk (lit "a b c d e f g h i j k l") 0 (Some 1) None;
       mkChunk (lit "m n o p q r s t u v w x") 1 (Some 3) None] /\
  Forall (fun c => exists n, page_number c = Some n /\ 1 <= n <= 3 /\
            HealthLink.page_info c = lit "[Page " ++ str_int n ++ lit "]")
    [mkChunk (lit "a b c d e f g h i j k l") 0 (Some 1) None;
     mkChunk (lit "m n o p q r s t u v w x") 1 (Some 3) None].
Proof.
  assert (H : PDF.chunk_text (PDF.mkProcessor 12 2 100)
    (PDF.extract_text_from_pdf
       [lit "a b c d e f g h i j k l"; lit "  "; lit "m n o p q r s t u v w x"]) =
  inr [mkChunk (lit "a b c d e f g h i j k l") 0 (Some 1) None;
       mkChunk (lit "m n o p q r s t u v w x") 1 (Some 3) None]) by reflexivity.
  split; [exact H|].
  destruct (pipeline_chunks_tagged_with_source_page _ _ _ H) as [Hf _].
  refine (Forall_impl _ _ Hf).
  intros c [n [r [i [Hp [Hb [_ [_ Ht]]]]]]]. exists n.
  split; [exact Hp|]. split; [exact Hb | exact Ht].
Defined.

(** ** More Python string facts: [strip], [split] and [join] *)

Lemma lstrip_length (s : pstr) : (length (lstrip s) <= length s)%nat.
Proof.
  induction s as [|c s IH]; simpl; [lia|]. destruct (isspace c); simpl; lia.
Qed.

Lemma lstrip_suffix (s : pstr) :
  exists pre, s = pre ++ lstrip s /\ Forall (fun c => isspace c = true) pre.
Proof.
  induction s as [|c s [pre [Hs Hp]]]; simpl; [exists []; auto|].
  destruct (isspace c) eqn:E.
  - exists (c :: pre). simpl. rewrite <- Hs. split; [reflexivity | constructor; auto].
  - exists []. auto.
Qed.

Lemma lstrip_idem (s : pstr) : lstrip (lstrip s) = lstrip s.
Proof.
  induction s as [|c s IH]; simpl; [reflexivity|].
  destruct (isspace c) eqn:E; [exact IH | simpl; rewrite E; reflexivity].
Qed.

Lemma lstrip_fix_prefix (x y : pstr) : lstrip (x ++ y) = x ++ y -> lstrip x = x.
Proof.
  destruct x as [|c x]; [reflexivity|]. simpl.
  destruct (isspace c) eqn:E; [|reflexivity].
  intros H. apply (f_equal (@length Z)) in H.
  pose proof (lstrip_length (x ++ y)). simpl in H. lia.
Qed.

(** [s.strip().strip() == s.strip()]. *)
Lemma strip_idem (s : pstr) : strip (strip s) = strip s.
Proof.
  unfold strip.
  set (a := lstrip s).
  assert (Ha : lstrip a = a) by apply lstrip_idem.
  destruct (lstrip_suffix (rev a)) as [pre [Hpre _]].
  set (b := lstrip (rev a)) in *.
  assert (Hab : a = rev b ++ rev pre).
  { rewrite <- rev_app_distr, <- Hpre, rev_involutive. reflexivity. }
  assert (Hb : lstrip (rev b) = rev b).
  { apply (lstrip_fix_prefix _ (rev pre)). rewrite <- Hab. exact Ha. }
  rewrite Hb, rev_involutive. unfold b at 1. rewrite lstrip_idem. reflexivity.
Qed.

Lemma lstrip_incl (s : pstr) : incl (lstrip s) s.
Proof.
  destruct (lstrip_suffix s) as [pre [Hs _]]. intros x Hx.
  rewrite Hs. apply in_or_app. right. exact Hx.
Qed.

Lemma strip_incl (s : pstr) : incl (strip s) s.
Proof.
  unfold strip. intros x Hx. apply in_rev in Hx. apply lstrip_incl in Hx.
  apply in_rev in Hx. apply lstrip_incl, Hx.
Qed.

(** The words of [split]: non-empty, without whitespace. *)
Definition word_ok (w : pstr) : Prop :=
  w <> [] /\ Forall (fun c => isspace c = false) w.

Lemma split_aux_words (cur s : pstr) :
  Forall (fun c => isspace c = false) cur -> Forall word_ok (split_aux cur s).
Proof.
  revert cur; induction s as [|c s IH]; intros cur Hcur; simpl.
  - destruct cur as [|d cur]; constructor; [|constructor].
    split; [|apply Forall_rev, Hcur].
    intros H. apply (f_equal (@length Z)) in H. rewrite length_rev in H.
    discriminate.
  - destruct (isspace c) eqn:E.
    + destruct cur as [|d cur]; [apply IH; constructor|].
      constructor; [|apply IH; constructor].
      split; [|apply Forall_rev, Hcur].
      intros H. apply (f_equal (@length Z)) in H. rewrite length_rev in H.
      discriminate.
    + apply IH. constructor; assumption.
Qed.

Lemma split_words (s : pstr) : Forall word_ok (split s).
Proof. apply split_aux_words. constructor. Qed.

Lemma split_aux_chars (Q : Z -> Prop) (cur s : pstr) :
  Forall Q cur -> Forall Q s -> Forall (Forall Q) (split_aux cur s).
Proof.
  revert cur; induction s as [|c s IH]; intros cur Hcur Hs; simpl.
  - destruct cur; constructor; [apply Forall_rev, Hcur | constructor].
  - inversion Hs as [|x l Hc Hs']; subst.
    destruct (isspace c).
    + destruct cur as [|d cur]; [apply IH; auto|].
      constructor; [apply Forall_rev, Hcur | apply IH; auto].
    + apply IH; [constructor|]; assumption.
Qed.

Lemma split_aux_word (cur w rest : pstr) :
  Forall (fun c => isspace c = false) w ->
  split_aux cur (w ++ rest) = split_aux (rev w ++ cur) rest.
Proof.
  intros Hw. revert cur; induction Hw as [|c w Hc _ IH]; intros cur; simpl;
    [reflexivity|].
  rewrite Hc, IH, <- app_assoc. reflexivity.
Qed.

Lemma rev_nonempty {A} (l : list A) : l <> [] -> rev l <> [].
Proof.
  intros H Hr. apply H. rewrite <- (rev_involutive l), Hr. reflexivity.
Qed.

(** [" ".join(ws).split() == ws] for words without whitespace. *)
Lemma split_join (ws : list pstr) :
  Forall word_ok ws -> split (join (lit " ") ws) = ws.
Proof.
  induction 1 as [|w ws [Hne Hw] Hws IH]; [reflexivity|].
  unfold split. destruct ws as [|v ws].
  - simpl join. rewrite <- (app_nil_r w), split_aux_word by exact Hw.
    rewrite app_nil_r. pose proof (rev_nonempty w Hne) as Hr.
    destruct (rev w) as [|x r] eqn:E; [contradiction|].
    cbn [split_aux]. rewrite <- E, ?app_nil_r, rev_involutive, ?app_nil_r. reflexivity.
  - change (join (lit " ") (w :: v :: ws)) with (w ++ [32] ++ join (lit " ") (v :: ws)).
    rewrite split_aux_word by exact Hw. rewrite app_nil_r.
    pose proof (rev_nonempty w Hne) as Hr.
    destruct (rev w) as [|x r] eqn:E; [contradiction|].
    cbn [split_aux app]. rewrite <- E, ?app_nil_r, rev_involutive, ?app_nil_r.
    replace (isspace 32) with true by reflexivity. f_equal. exact IH.
Qed.

Lemma split_aux_trailing (cur x sp : pstr) :
  Forall (fun c => isspace c = true) sp -> split_aux cur (x ++ sp) = split_aux cur x.
Proof.
  intros Hsp. revert cur; induction x as [|c x IH]; intros cur; simpl.
  - revert cur; induction Hsp as [|c sp Hc _ IH]; intros cur; [reflexivity|].
    simpl. rewrite Hc. destruct cur as [|d cur]; [apply IH|].
    rewrite IH. reflexivity.
  - destruct (isspace c); [destruct cur|]; rewrite ?IH; reflexivity.
Qed.

Lemma split_lstrip (s : pstr) : split (lstrip s) = split s.
Proof.
  unfold split. induction s as [|c s IH]; simpl; [reflexivity|].
  destruct (isspace c) eqn:E; [exact IH | simpl; rewrite E; reflexivity].
Qed.

(** [s.strip().split() == s.split()]. *)
Lemma split_strip (s : pstr) : split (strip s) = split s.
Proof.
  rewrite <- (split_lstrip s). unfold strip.
  set (a := lstrip s).
  destruct (lstrip_suffix (rev a)) as [pre [Hpre Hsp]].
  assert (Hab : a = rev (lstrip (rev a)) ++ rev pre).
  { rewrite <- rev_app_distr, <- Hpre, rev_involutive. reflexivity. }
  rewrite Hab at 2. unfold split. rewrite split_aux_trailing by (apply Forall_rev, Hsp).
  reflexivity.
Qed.

Lemma join_chars (Q : Z -> Prop) (sep : pstr) (ws : list pstr) :
  Forall Q sep -> Forall (Forall Q) ws -> Forall Q (join sep ws).
Proof.
  intros Hsep. induction 1 as [|w ws Hw _ IH]; [constructor|].
  destruct ws as [|v ws]; [exact Hw|].
  change (join sep (w :: v :: ws)) with (w ++ sep ++ join sep (v :: ws)).
  apply Forall_app. split; [exact Hw | apply Forall_app; auto].
Qed.

Lemma replace_char_id (a b : Z) (s : pstr) :
  Forall (fun c => c <> a) s -> replace_char a b s = s.
Proof.
  unfold replace_char. induction 1 as [|c s Hc _ IH]; [reflexivity|].
  simpl. rewrite IH. apply Z.eqb_neq in Hc. rewrite Hc. reflexivity.
Qed.

(** ** Text extraction *)

(** [_clean_text] leaves no NUL and no U+FFFD replacement character, and
    its result has no leading or trailing whitespace. *)
Theorem clean_text_normalised (text : pstr) :
  strip (PDF.clean_text text) = PDF.clean_text text /\
  ~ In 0 (PDF.clean_text text) /\ ~ In 65533 (PDF.clean_text text).
Proof.
  unfold PDF.clean_text. split; [apply strip_idem|].
  set (j := join (lit " ") (split text)).
  assert (Hr : forall c, In c (replace_char 65533 32 (replace_char 0 32 j)) ->
                         c <> 0 /\ c <> 65533).
  { intros c Hc. unfold replace_char in Hc. rewrite map_map in Hc.
    apply in_map_iff in Hc. destruct Hc as [d [<- _]].
    destruct (d =? 0) eqn:E0; simpl; [lia|].
    destruct (d =? 65533) eqn:E1; [lia|].
    apply Z.eqb_neq in E0, E1. lia. }
  split; intros H; apply strip_incl, Hr in H; lia.
Qed.

(** [_clean_text] keeps the words of a text without NUL and U+FFFD: it only
    normalises the whitespace between them. *)
Theorem clean_text_same_words (text : pstr) :
  Forall (fun c => c <> 0 /\ c <> 65533) text ->
  split (PDF.clean_text text) = split text.
Proof.
  intros Ht. unfold PDF.clean_text. rewrite split_strip.
  assert (Hj : Forall (fun c => c <> 0 /\ c <> 65533) (join (lit " ") (split text))).
  { apply join_chars; [repeat constructor; discriminate|].
    apply split_aux_chars; [constructor | exact Ht]. }
  rewrite !replace_char_id.
  - apply split_join, split_words.
  - eapply Forall_impl; [|exact Hj]. intros c Hc. apply Hc.
  - rewrite replace_char_id; [|eapply Forall_impl; [|exact Hj]; intros c Hc; apply Hc].
    eapply Forall_impl; [|exact Hj]. intros c Hc. apply Hc.
Qed.

Example clean_text_same_words_witness :
  Forall (fun c => c <> 0 /\ c <> 65533) (lit "  two	words ") /\
  split (PDF.clean_text (lit "  two	words ")) = [lit "two"; lit "words"].
Proof.
  assert (H : Forall (fun c => c <> 0 /\ c <> 65533) (lit "  two	words "))
    by (vm_compute; repeat constructor; discriminate).
  split; [exact H|].
  rewrite (clean_text_same_words _ H). reflexivity.
Defined.

Lemma extract_pages_filter (pages : list pstr) (k : Z) :
  PDF.extract_pages pages k =
  filter (fun tn => match strip (fst tn) with [] => false | _ => true end)
    (combine (map PDF.clean_text pages) (map (fun n => k + Z.of_nat n) (seq 1 (length pages)))).
Proof.
  revert k; induction pages as [|r pages IH]; intros k; [reflexivity|].
  cbn [PDF.extract_pages length seq map combine filter fst].
  assert (Hs : map (fun n => k + Z.of_nat n) (seq 2 (length pages)) =
               map (fun n => k + 1 + Z.of_nat n) (seq 1 (length pages))).
  { rewrite <- seq_shift, map_map. apply map_ext. intros n. lia. }
  rewrite Hs, <- IH. replace (k + Z.of_nat 1) with (k + 1) by lia.
  destruct (strip (PDF.clean_text r)); reflexivity.
Qed.

(** [extract_text_from_pdf] returns, in page order, the cleaned text of
    every page whose cleaned text is not blank, paired with the page's
    1-based position in the document (blank pages keep their number). *)
Theorem extract_text_from_pdf_nonblank_pages (pages : list pstr) :
  PDF.extract_text_from_pdf pages =
  filter (fun tn => match strip (fst tn) with [] => false | _ => true end)
    (combine (map PDF.clean_text pages) (map Z.of_nat (seq 1 (length pages)))).
Proof.
  unfold PDF.extract_text_from_pdf. rewrite extract_pages_filter. reflexivity.
Qed.

(** ** Chunking: the windows *)

Lemma page_loop_negative_step p pages chunks cid :
  PDF.chunk_size p - PDF.chunk_overlap p < 0 ->
  PDF.page_loop p pages chunks cid = inr chunks.
Proof.
  intros Hs. revert chunks cid; induction pages as [|[text page_num] pages IH];
    intros chunks cid; [reflexivity|].
  cbn [PDF.page_loop]. unfold range.
  replace (PDF.chunk_size p - PDF.chunk_overlap p =? 0) with false
    by (symmetry; apply Z.eqb_neq; lia).
  replace (0 <? PDF.chunk_size p - PDF.chunk_overlap p) with false
    by (symmetry; apply Z.ltb_ge; lia).
  replace (Z.to_nat (0 - Z.of_nat (length (split text)))) with 0%nat by lia.
  apply IH.
Qed.

(** [chunk_text] with a step [chunk_size - chunk_overlap] of 0 raises the
    [ValueError] of [range] (wrapped) as soon as there is a page; with a
    negative step [range] is empty and no chunk is ever produced. *)
Theorem chunk_text_nonpositive_step p text_pages :
  (PDF.chunk_size p = PDF.chunk_overlap p -> text_pages <> [] ->
   PDF.chunk_text p text_pages =
     inl (ValueError "Failed to chunk text: range() arg 3 must not be zero")) /\
  (PDF.chunk_size p < PDF.chunk_overlap p -> PDF.chunk_text p text_pages = inr []).
Proof.
  split.
  - intros Heq Hne. destruct text_pages as [|[text page_num] rest]; [contradiction|].
    unfold PDF.chunk_text. cbn [PDF.page_loop]. rewrite Heq, Z.sub_diag.
    reflexivity.
  - intros Hlt. unfold PDF.chunk_text. rewrite page_loop_negative_step by lia.
    reflexivity.
Qed.

Example chunk_text_nonpositive_step_witness :
  PDF.chunk_text (PDF.mkProcessor 50 50 100) [(lit "a b c", 1)] =
    inl (ValueError "Failed to chunk text: range() arg 3 must not be zero") /\
  PDF.chunk_text (PDF.mkProcessor 10 50 100)
    [(lit "a b c d e f g h i j k l m n o p", 1)] = inr [].
Proof.
  destruct (chunk_text_nonpositive_step (PDF.mkProcessor 50 50 100) [(lit "a b c", 1)])
    as [H1 _].
  destruct (chunk_text_nonpositive_step (PDF.mkProcessor 10 50 100)
              [(lit "a b c d e f g h i j k l m n o p", 1)]) as [_ H2].
  split; [apply H1; [reflexivity | discriminate] | apply H2; simpl; lia].
Defined.

Lemma range_up_ge a stop step fuel :
  0 < step -> Forall (fun i => a <= i) (range_up a stop step fuel).
Proof.
  intros Hs. revert a; induction fuel as [|f IH]; intros a; simpl; [constructor|].
  destruct (a <? stop); [|constructor].
  constructor; [lia|]. eapply Forall_impl; [|apply IH]. simpl. intros i Hi. lia.
Qed.

Lemma range_from_zero_nonneg n step idxs :
  0 <= n -> range 0 n step = inr idxs -> Forall (fun i => 0 <= i) idxs.
Proof.
  intros Hn. unfold range.
  destruct (step =? 0); [discriminate|].
  destruct (0 <? step) eqn:E; intros H; injection H as <-.
  - apply range_up_ge. apply Z.ltb_lt, E.
  - simpl. destruct (Z.to_nat (- n)) eqn:Ez; [constructor | lia].
Qed.

Lemma window_loop_windows p words page_num idxs chunks cid c :
  In c (fst (PDF.window_loop p words page_num idxs chunks cid)) ->
  In c chunks \/
  exists i, In i idxs /\
    c = mkChunk (join (lit " ") (slice words i (i + PDF.chunk_size p)))
          (chunk_id c) (Some page_num) None /\
    (10 <= length (slice words i (i + PDF.chunk_size p)))%nat.
Proof.
  revert chunks cid; induction idxs as [|i idxs IH]; intros chunks cid H;
    simpl in H; [left; exact H|].
  destruct (Z.of_nat (length (slice words i (i + PDF.chunk_size p))) <? 10) eqn:E.
  - destruct (IH _ _ H) as [Hin|[i' [Hi' Hc]]]; [left; exact Hin|].
    right. exists i'. split; [right; exact Hi' | exact Hc].
  - destruct (IH _ _ H) as [Hin|[i' [Hi' Hc]]].
    + apply in_app_or in Hin. destruct Hin as [Hin|[<-|[]]]; [left; exact Hin|].
      right. exists i. split; [left; reflexivity|].
      split; [reflexivity|]. apply Z.ltb_ge in E. lia.
    + right. exists i'. split; [right; exact Hi' | exact Hc].
Qed.

Lemma page_loop_windows p pages chunks cid cs c :
  PDF.page_loop p pages chunks cid = inr cs -> In c cs ->
  In c chunks \/
  exists text page_num i, In (text, page_num) pages /\ 0 <= i /\
    c = mkChunk (join (lit " ") (slice (split text) i (i + PDF.chunk_size p)))
          (chunk_id c) (Some page_num) None /\
    (10 <= length (slice (split text) i (i + PDF.chunk_size p)))%nat.
Proof.
  revert chunks cid; induction pages as [|[text page_num] pages IH];
    intros chunks cid Hrun Hc; simpl in Hrun.
  - injection Hrun as <-. left. exact Hc.
  - destruct (range _ _ _) as [e|idxs] eqn:Er; [discriminate|].
    pose proof (window_loop_windows p (split text) page_num idxs chunks cid c) as Hw.
    destruct (PDF.window_loop _ _ _ _ _ _) as [chunks' cid'].
    destruct (IH chunks' cid' Hrun Hc) as [Hin|[t [n [i [Hin Hrest]]]]].
    + destruct (Hw Hin) as [H|[i [Hi Hrest]]]; [left; exact H|].
      right. exists text, page_num, i. split; [left; reflexivity|].
      split; [|exact Hrest].
      apply range_from_zero_nonneg in Er; [|lia].
      rewrite Forall_forall in Er. apply Er, Hi.
    + right. exists t, n, i. split; [right; exact Hin | exact Hrest].
Qed.

Lemma slice_length_window {A} (l : list A) i size :
  0 <= i -> 0 <= size -> (length (slice l i (i + size)) <= Z.to_nat size)%nat.
Proof.
  intros Hi Hs. unfold slice, slice_index.
  replace (i <? 0) with false by (symmetry; apply Z.ltb_ge; lia).
  replace (i + size <? 0) with false by (symmetry; apply Z.ltb_ge; lia).
  rewrite length_firstn. lia.
Qed.

Lemma slice_words_ok (l : list pstr) i j :
  Forall word_ok l -> Forall word_ok (slice l i j).
Proof. intros H. apply (incl_Forall (slice_incl l i j) H). Qed.

(** Every chunk of [chunk_text] is a window of consecutive words of one of
    its input pages: at least 10 and (for a non-negative [chunk_size]) at
    most [chunk_size] words, joined by single spaces; it carries that
    page's number and no embedding. *)
Theorem chunk_text_chunks_are_windows p text_pages cs :
  0 <= PDF.chunk_size p -> PDF.chunk_text p text_pages = inr cs ->
  Forall (fun c => exists text page_num i,
            In (text, page_num) text_pages /\ page_number c = Some page_num /\
            embedding c = None /\ 0 <= i /\
            split (content c) = slice (split text) i (i + PDF.chunk_size p) /\
            (10 <= length (split (content c)) <= Z.to_nat (PDF.chunk_size p))%nat) cs.
Proof.
  intros Hsize Hrun. unfold PDF.chunk_text in Hrun.
  destruct (PDF.page_loop p text_pages [] 0) as [e|cs'] eqn:Hloop; [discriminate|].
  injection Hrun as <-. apply Forall_forall. intros c Hc.
  destruct (page_loop_windows _ _ _ _ _ c Hloop Hc)
    as [[]|[text [page_num [i [Hin [Hi [Hceq Hlen]]]]]]].
  exists text, page_num, i.
  assert (Hsplit : split (content c) = slice (split text) i (i + PDF.chunk_size p)).
  { rewrite Hceq. simpl. apply split_join, slice_words_ok, split_words. }
  split; [exact Hin|].
  split; [rewrite Hceq; reflexivity|]. split; [rewrite Hceq; reflexivity|].
  split; [exact Hi|]. split; [exact Hsplit|].
  rewrite Hsplit. split; [exact Hlen | apply slice_length_window; assumption].
Qed.

Example chunk_text_chunks_are_windows_witness :
  PDF.chunk_text (PDF.mkProcessor 12 2 100)
    [(lit "a b c d e f g h i j k l m n o p q r s t u", 4)] =
    inr [mkChunk (lit "a b c d e f g h i j k l") 0 (Some 4) None;
         mkChunk (lit "k l m n o p q r s t u") 1 (Some 4) None] /\
  Forall (fun c => (10 <= length (split (content c)) <= 12)%nat)
    [mkChunk (lit "a b c d e f g h i j k l") 0 (Some 4) None;
     mkChunk (lit "k l m n o p q r s t u") 1 (Some 4) None].
Proof.
  assert (H : PDF.chunk_text (PDF.mkProcessor 12 2 100)
    [(lit "a b c d e f g h i j k l m n o p q r s t u", 4)] =
    inr [mkChunk (lit "a b c d e f g h i j k l") 0 (Some 4) None;
         mkChunk (lit "k l m n o p q r s t u") 1 (Some 4) None]) by reflexivity.
  split; [exact H|].
  refine (Forall_impl _ _ (chunk_text_chunks_are_windows _ _ _ _ H)); [|simpl; lia].
  intros c [t [n [i [_ [_ [_ [_ [_ Hb]]]]]]]]. exact Hb.
Defined.

Lemma range_up_In step stop :
  0 < step -> forall fuel a i,
  (Z.to_nat (stop - a) <= fuel)%nat -> a <= i < stop -> (i - a) mod step = 0 ->
  In i (range_up a stop step fuel).
Proof.
  intros Hs fuel. induction fuel as [|f IH]; intros a i Hf Hi Hm; [lia|].
  simpl. replace (a <? stop) with true by (symmetry; apply Z.ltb_lt; lia).
  destruct (Z.eq_dec i a) as [->|Hne]; [left; reflexivity|]. right.
  assert (Hq := Z.div_mod (i - a) step ltac:(lia)). rewrite Hm, Z.add_0_r in Hq.
  assert (Hq1 : 1 <= (i - a) / step) by nia.
  apply IH; [lia | nia|].
  replace (i - (a + step)) with ((i - a) + (-1) * step) by lia.
  rewrite Z.mod_add by lia. exact Hm.
Qed.

Lemma window_loop_mono p words page_num idxs chunks cid :
  incl chunks (fst (PDF.window_loop p words page_num idxs chunks cid)).
Proof.
  revert chunks cid; induction idxs as [|i idxs IH]; intros chunks cid;
    simpl; [apply incl_refl|].
  destruct (_ <? 10); [apply IH|].
  intros x Hx. apply IH. apply in_or_app. left. exact Hx.
Qed.

Lemma window_loop_emits p words page_num idxs chunks cid i :
  In i idxs ->
  (10 <= length (slice words i (i + PDF.chunk_size p)))%nat ->
  exists cid', In (mkChunk (join (lit " ") (slice words i (i + PDF.chunk_size p)))
                    cid' (Some page_num) None)
                 (fst (PDF.window_loop p words page_num idxs chunks cid)).
Proof.
  intros Hi Hlen. revert chunks cid; induction idxs as [|i' idxs IH]; intros chunks cid;
    [destruct Hi|].
  destruct Hi as [->|Hi].
  - simpl. replace (Z.of_nat (length (slice words i (i + PDF.chunk_size p))) <? 10)
      with false by (symmetry; apply Z.ltb_ge; lia).
    exists cid. apply window_loop_mono. apply in_or_app. right. left. reflexivity.
  - simpl. destruct (_ <? 10); apply IH; exact Hi.
Qed.

Lemma page_loop_mono p pages chunks cid cs :
  PDF.page_loop p pages chunks cid = inr cs -> incl chunks cs.
Proof.
  revert chunks cid; induction pages as [|[text page_num] pages IH];
    intros chunks cid Hrun; simpl in Hrun.
  - injection Hrun as <-. apply incl_refl.
  - destruct (range _ _ _) as [e|idxs]; [discriminate|].
    pose proof (window_loop_mono p (split text) page_num idxs chunks cid) as Hw.
    destruct (PDF.window_loop _ _ _ _ _ _) as [chunks' cid'].
    intros x Hx. apply (IH chunks' cid' Hrun), Hw, Hx.
Qed.

Lemma page_loop_page p pages chunks cid cs text page_num :
  In (text, page_num) pages -> PDF.page_loop p pages chunks cid = inr cs ->
  exists idxs chunks0 cid0,
    range 0 (Z.of_nat (length (split text))) (PDF.chunk_size p - PDF.chunk_overlap p)
      = inr idxs /\
    incl (fst (PDF.window_loop p (split text) page_num idxs chunks0 cid0)) cs.
Proof.
  revert chunks cid; induction pages as [|[t n] pages IH];
    intros chunks cid Hin Hrun; [destruct Hin|].
  simpl in Hrun.
  destruct (range 0 (Z.of_nat (length (split t))) _) as [e|idxs] eqn:Er; [discriminate|].
  destruct (PDF.window_loop p (split t) n idxs chunks cid) as [chunks' cid'] eqn:Ew.
  destruct Hin as [Heq|Hin].
  - injection Heq as -> ->. exists idxs, chunks, cid. split; [exact Er|].
    rewrite Ew. simpl. apply (page_loop_mono _ _ _ _ _ Hrun).
  - exact (IH chunks' cid' Hin Hrun).
Qed.

Lemma slice_window_length {A} (l : list A) i size :
  0 <= i <= Z.of_nat (length l) -> 0 <= size ->
  Z.of_nat (length (slice l i (i + size))) = Z.min size (Z.of_nat (length l) - i).
Proof.
  intros Hi Hs. unfold slice, slice_index.
  replace (i <? 0) with false by (symmetry; apply Z.ltb_ge; lia).
  replace (i + size <? 0) with false by (symmetry; apply Z.ltb_ge; lia).
  rewrite length_firstn, length_skipn. lia.
Qed.

Lemma slice_window_nth {A} (l : list A) i size k :
  0 <= i <= Z.of_nat (length l) -> 0 <= size ->
  (k < length (slice l i (i + size)))%nat ->
  nth_error (slice l i (i + size)) k = nth_error l (Z.to_nat i + k).
Proof.
  intros Hi Hs Hk. unfold slice, slice_index in *.
  replace (i <? 0) with false in * by (symmetry; apply Z.ltb_ge; lia).
  replace (i + size <? 0) with false in * by (symmetry; apply Z.ltb_ge; lia).
  rewrite length_firstn in Hk.
  rewrite nth_error_firstn. replace (Nat.ltb k _) with true
    by (symmetry; apply Nat.ltb_lt; lia).
  rewrite nth_error_skipn. f_equal. lia.
Qed.

(** With a step [chunk_size - chunk_overlap] of at least 10 words and an
    overlap of at least 9 words (the default 400/50 qualifies), no word is
    lost: every word of every page with at least 10 words is in a chunk
    tagged with that page, which is a window starting at or before it.
    (A window shorter than 10 words is dropped only at the end of a page,
    where the previous window, kept, overlaps it.) *)
Theorem chunk_text_covers_every_word p text_pages cs text page_num (j : nat) :
  10 <= PDF.chunk_size p - PDF.chunk_overlap p -> 9 <= PDF.chunk_overlap p ->
  PDF.chunk_text p text_pages = inr cs -> In (text, page_num) text_pages ->
  (10 <= length (split text))%nat -> (j < length (split text))%nat ->
  exists c (i : nat),
    In c cs /\ page_number c = Some page_num /\ (i <= j)%nat /\
    content c = join (lit " ")
                  (slice (split text) (Z.of_nat i) (Z.of_nat i + PDF.chunk_size p)) /\
    nth_error (split (content c)) (j - i) = nth_error (split text) j.
Proof.
  intros Hstep Hov Hrun Hin Hn Hj.
  unfold PDF.chunk_text in Hrun.
  destruct (PDF.page_loop p text_pages [] 0) as [e|cs'] eqn:Hloop; [discriminate|].
  injection Hrun as <-.
  destruct (page_loop_page _ _ _ _ _ _ _ Hin Hloop) as [idxs [chunks0 [cid0 [Hr Hincl]]]].
  set (words := split text) in *.
  set (n := Z.of_nat (length words)) in *.
  set (s := PDF.chunk_size p - PDF.chunk_overlap p) in *.
  set (size := PDF.chunk_size p) in *.
  assert (Hsize : s + 9 <= size) by (unfold s, size; lia).
  assert (Hs10 : 10 <= s) by (unfold s; lia).
  assert (Hnd : n = Z.of_nat (length words)) by reflexivity.
  unfold range in Hr.
  replace (s =? 0) with false in Hr by (symmetry; apply Z.eqb_neq; lia).
  replace (0 <? s) with true in Hr by (symmetry; apply Z.ltb_lt; lia).
  injection Hr as Hidxs.
  (* the window of [j] and, when it is too short, the one before it *)
  assert (Hinr : forall q, 0 <= q -> q * s < n -> In (q * s) idxs).
  { intros q Hq Hqn. rewrite <- Hidxs. apply range_up_In; [lia | lia | nia|].
    rewrite Z.sub_0_r. apply Z.mod_mul. lia. }
  assert (Hwords : Forall word_ok (slice words 0 0)) by apply slice_words_ok, split_words.
  assert (Hemit : forall i, 0 <= i < n -> In i idxs -> Z.of_nat j < i + size ->
                  i <= Z.of_nat j -> 10 <= n - i ->
                  exists c (i' : nat), In c cs' /\ page_number c = Some page_num /\
                    (i' <= j)%nat /\
                    content c = join (lit " ")
                      (slice words (Z.of_nat i') (Z.of_nat i' + size)) /\
                    nth_error (split (content c)) (j - i') = nth_error words j).
  { intros i Hi Hii Hji Hij Hni.
    assert (Hl := slice_window_length words i size ltac:(lia) ltac:(lia)).
    fold n in Hl.
    assert (Hl10 : (10 <= length (slice words i (i + size)))%nat) by lia.
    destruct (window_loop_emits p words page_num idxs chunks0 cid0 i Hii Hl10)
      as [cid' Hc].
    eexists. exists (Z.to_nat i).
    split; [apply Hincl, Hc|]. split; [reflexivity|]. split; [lia|].
    rewrite Z2Nat.id by lia. split; [reflexivity|]. simpl.
    change (PDF.chunk_size p) with size.
    rewrite split_join by (apply slice_words_ok, split_words).
    rewrite slice_window_nth by lia. f_equal. lia. }
  set (q := Z.of_nat j / s).
  assert (Hdm := Z.div_mod (Z.of_nat j) s ltac:(lia)).
  assert (Hmb := Z.mod_pos_bound (Z.of_nat j) s ltac:(lia)).
  fold q in Hdm.
  assert (Hq0 : 0 <= q) by (apply Z.div_pos; lia).
  assert (Hjn : Z.of_nat j < n) by lia.
  destruct (Z_le_gt_dec 10 (n - q * s)) as [Hlong|Hshort].
  - apply (Hemit (q * s)); [nia | apply Hinr; nia | nia | nia | nia].
  - assert (Hq1 : 1 <= q) by nia.
    apply (Hemit ((q - 1) * s)); [nia | apply Hinr; nia | nia | nia | nia].
Qed.

Example chunk_text_covers_every_word_witness :
  let text := join (lit " ") (repeat (lit "w") 405) in
  exists c (i : nat),
    In c [mkChunk (join (lit " ") (repeat (lit "w") 400)) 0 (Some 1) None;
          mkChunk (join (lit " ") (repeat (lit "w") 55)) 1 (Some 1) None] /\
    page_number c = Some 1 /\ (i <= 404)%nat /\
    content c = join (lit " ") (slice (split text) (Z.of_nat i) (Z.of_nat i + 400)) /\
    nth_error (split (content c)) (404 - i) = nth_error (split text) 404.
Proof.
  intros text.
  assert (Hs : split text = repeat (lit "w") 405)
    by (apply split_join; apply Forall_forall; intros w Hw;
        apply repeat_spec in Hw; subst w; split; [discriminate | repeat constructor]).
  assert (Hr : PDF.chunk_text PDF.default_processor [(text, 1)] =
               inr [mkChunk (join (lit " ") (repeat (lit "w") 400)) 0 (Some 1) None;
                    mkChunk (join (lit " ") (repeat (lit "w") 55)) 1 (Some 1) None])
    by (vm_compute; reflexivity).
  apply (chunk_text_covers_every_word PDF.default_processor [(text, 1)] _ text 1 404);
    [vm_compute; discriminate | vm_compute; discriminate | exact Hr | left; reflexivity
    | rewrite Hs, repeat_length; lia | rewrite Hs, repeat_length; lia].
Defined.

(** ** Downloading *)

Lemma stream_loop_ok max chunks err acc tot out :
  Fetch.stream_loop max chunks err acc tot = inr out ->
  err = None /\ out = acc ++ concat chunks /\
  (concat chunks = [] \/ tot + Z.of_nat (length (concat chunks)) <= max).
Proof.
  revert acc tot; induction chunks as [|c rest IH]; intros acc tot H.
  - cbn in H. destruct err; [discriminate|]. injection H as <-.
    rewrite app_nil_r. auto.
  - cbn [Fetch.stream_loop] in H. destruct c as [|x c].
    + apply IH in H. exact H.
    + destruct (max <? tot + Z.of_nat (length (x :: c))) eqn:Hm; [discriminate|].
      apply Z.ltb_ge in Hm. apply IH in H as (-> & -> & Hr).
      cbn [concat]. rewrite app_assoc. split; [reflexivity | split; [reflexivity|]].
      right. rewrite length_app. destruct Hr as [Hr|Hr].
      * rewrite Hr. cbn [length]. cbn [length] in Hm. lia.
      * lia.
Qed.


(** A download that succeeds returned a response without a streaming
    error, and its bytes are the non-empty chunks of the body concatenated
    in order, never more than [max_file_size] of them. *)
Theorem download_pdf_success http_get py_int p url content :
  Fetch.download_pdf http_get py_int p url = inr content ->
  exists r, http_get url = Fetch.GetOk r /\ Fetch.body_error r = None /\
    content = concat (Fetch.body r) /\
    (content = [] \/ Z.of_nat (length content) <= PDF.max_file_size p).
Proof.
  unfold Fetch.download_pdf, Fetch.download_body. intros H.
  destruct (http_get url) as [m|r]; [discriminate|].
  exists r. split; [reflexivity|].
  assert (Hs : Fetch.stream_loop (PDF.max_file_size p) (Fetch.body r)
                 (Fetch.body_error r) [] 0 = inr content).
  { destruct (Fetch.content_length r) as [[|x cl]|].
    - destruct (Fetch.stream_loop _ _ _ _ _) as [[]|]; congruence.
    - destruct (py_int (x :: cl)) as [m|n]; [discriminate|].
      destruct (PDF.max_file_size p <? n); [discriminate|].
      destruct (Fetch.stream_loop _ _ _ _ _) as [[]|]; congruence.
    - destruct (Fetch.stream_loop _ _ _ _ _) as [[]|]; congruence. }
  apply stream_loop_ok in Hs as (He & -> & Hr).
  split; [exact He | split; [reflexivity|]]. cbn [app].
  destruct Hr as [Hr|Hr]; [left; exact Hr | right; lia].
Qed.

Example download_pdf_success_witness :
  exists r, Fetch.GetOk (Fetch.mkHttpResponse (Some (lit "4")) [[37; 80]; []; [68; 70]] None)
              = Fetch.GetOk r /\ Fetch.body_error r = None /\
    [37; 80; 68; 70] = concat (Fetch.body r) /\
    ([37; 80; 68; 70] = [] \/ Z.of_nat (length [37; 80; 68; 70]) <= 10).
Proof.
  apply (download_pdf_success
           (fun _ => Fetch.GetOk (Fetch.mkHttpResponse (Some (lit "4")) [[37; 80]; []; [68; 70]] None))
           (fun _ => inr 4) (PDF.mkProcessor 400 50 10) (lit "http://x/a.pdf")).
  vm_compute. reflexivity.
Defined.



(** A [content-length] header that parses to more than [max_file_size]
    rejects the download before any of the body is read, with the header
    text quoted in the message. *)
Theorem download_pdf_declared_too_large http_get py_int p url r cl n :
  http_get url = Fetch.GetOk r ->
  Fetch.content_length r = Some cl -> cl <> [] ->
  py_int cl = inr n -> PDF.max_file_size p < n ->
  Fetch.download_pdf http_get py_int p url =
    inl (lit "Error downloading PDF: File too large: " ++ cl ++ lit " bytes").
Proof.
  intros Hg Hc Hne Hn Hlt. unfold Fetch.download_pdf, Fetch.download_body.
  rewrite Hg, Hc. destruct cl as [|x cl]; [contradiction|].
  rewrite Hn. replace (PDF.max_file_size p <? n) with true by (symmetry; apply Z.ltb_lt; lia).
  reflexivity.
Qed.

Example download_pdf_declared_too_large_witness :
  Fetch.download_pdf
    (fun _ => Fetch.GetOk (Fetch.mkHttpResponse (Some (lit "99")) [[1]] None))
    (fun _ => inr 99) (PDF.mkProcessor 400 50 10) (lit "http://x/a.pdf") =
    inl (lit "Error downloading PDF: File too large: " ++ lit "99" ++ lit " bytes").
Proof.
  apply (download_pdf_declared_too_large
           (fun _ => Fetch.GetOk (Fetch.mkHttpResponse (Some (lit "99")) [[1]] None))
           (fun _ => inr 99) (PDF.mkProcessor 400 50 10) (lit "http://x/a.pdf")
           (Fetch.mkHttpResponse (Some (lit "99")) [[1]] None) (lit "99") 99);
    [reflexivity | reflexivity | discriminate | reflexivity | simpl; lia].
Defined.

(** ** The processing pipeline *)

Lemma extract_pages_blank pages k :
  Forall (fun pg => strip (PDF.clean_text pg) = []) pages ->
  PDF.extract_pages pages k = [].
Proof.
  revert k; induction pages as [|r pages IH]; intros k H; [reflexivity|].
  inversion H as [|? ? Hr Hrest]; subst. cbn [PDF.extract_pages].
  rewrite Hr. apply IH, Hrest.
Qed.

Lemma extract_pages_nonempty pages k :
  Exists (fun pg => strip (PDF.clean_text pg) <> []) pages ->
  PDF.extract_pages pages k <> [].
Proof.
  revert k; induction pages as [|r pages IH]; intros k H; [inversion H|].
  cbn [PDF.extract_pages].
  destruct (strip (PDF.clean_text r)) eqn:Hr; [|discriminate].
  inversion H as [? ? Hr'|? ? Hrest]; subst; [contradiction|].
  apply IH, Hrest.
Qed.

Lemma extract_pages_short pages k :
  Forall (fun pg => (length (split (PDF.clean_text pg)) < 10)%nat) pages ->
  Forall (fun tn => (length (split (fst tn)) < 10)%nat) (PDF.extract_pages pages k).
Proof.
  revert k; induction pages as [|r pages IH]; intros k H; [constructor|].
  inversion H as [|? ? Hr Hrest]; subst. cbn [PDF.extract_pages].
  destruct (strip (PDF.clean_text r)); [apply IH, Hrest|].
  constructor; [exact Hr | apply IH, Hrest].
Qed.

Lemma slice_length_le {A} (l : list A) i j : (length (slice l i j) <= length l)%nat.
Proof. unfold slice. rewrite length_firstn, length_skipn. lia. Qed.

Lemma window_loop_short p words page_num idxs chunks cid :
  (length words < 10)%nat ->
  PDF.window_loop p words page_num idxs chunks cid = (chunks, cid).
Proof.
  intros Hw. induction idxs as [|i idxs IH]; [reflexivity|].
  cbn [PDF.window_loop].
  pose proof (slice_length_le words i (i + PDF.chunk_size p)).
  replace (Z.of_nat (length (slice words i (i + PDF.chunk_size p))) <? 10) with true
    by (symmetry; apply Z.ltb_lt; lia).
  exact IH.
Qed.

Lemma page_loop_short p pages chunks cid :
  PDF.chunk_size p <> PDF.chunk_overlap p ->
  Forall (fun tn => (length (split (fst tn)) < 10)%nat) pages ->
  PDF.page_loop p pages chunks cid = inr chunks.
Proof.
  intros Hne H. revert chunks cid; induction pages as [|[text page_num] pages IH];
    intros chunks cid; [reflexivity|].
  inversion H as [|? ? Ht Hrest]; subst. cbn [fst] in Ht.
  cbn [PDF.page_loop]. unfold range.
  replace (PDF.chunk_size p - PDF.chunk_overlap p =? 0) with false
    by (symmetry; apply Z.eqb_neq; lia).
  destruct (0 <? PDF.chunk_size p - PDF.chunk_overlap p);
    rewrite window_loop_short by exact Ht; apply IH, Hrest.
Qed.

(** A document whose pages are all blank after cleaning (including a
    document with no pages) is rejected with "No text could be extracted
    from the PDF" once it has been downloaded and opened. *)
Theorem process_pdf_blank_document http_get py_int open_pdf p url content pages :
  Fetch.download_pdf http_get py_int p url = inr content ->
  open_pdf content = inr pages ->
  Forall (fun pg => strip (PDF.clean_text pg) = []) pages ->
  Fetch.process_pdf http_get py_int open_pdf p url =
    inl (lit "No text could be extracted from the PDF").
Proof.
  intros Hd Ho Hb. unfold Fetch.process_pdf, Fetch.extract_text.
  rewrite Hd, Ho. unfold PDF.extract_text_from_pdf.
  rewrite extract_pages_blank by exact Hb. reflexivity.
Qed.

Example process_pdf_blank_document_witness :
  Fetch.process_pdf
    (fun _ => Fetch.GetOk (Fetch.mkHttpResponse None [[37; 80]] None))
    (fun _ => inr 0) (fun _ => inr [lit "  "; [0; 65533]; []])
    PDF.default_processor (lit "http://x/a.pdf") =
    inl (lit "No text could be extracted from the PDF").
Proof.
  apply (process_pdf_blank_document
           (fun _ => Fetch.GetOk (Fetch.mkHttpResponse None [[37; 80]] None))
           (fun _ => inr 0) (fun _ => inr [lit "  "; [0; 65533]; []])
           PDF.default_processor (lit "http://x/a.pdf") [37; 80] [lit "  "; [0; 65533]; []]);
    [reflexivity | reflexivity | repeat constructor].
Defined.

(** A document with some text whose every page has fewer than 10 words
    after cleaning gives no window of 10 words, so (for a non-zero step
    [chunk_size - chunk_overlap]) it is rejected with "No valid chunks
    could be created from the PDF". *)
Theorem process_pdf_short_pages http_get py_int open_pdf p url content pages :
  Fetch.download_pdf http_get py_int p url = inr content ->
  open_pdf content = inr pages ->
  Exists (fun pg => strip (PDF.clean_text pg) <> []) pages ->
  Forall (fun pg => (length (split (PDF.clean_text pg)) < 10)%nat) pages ->
  PDF.chunk_size p <> PDF.chunk_overlap p ->
  Fetch.process_pdf http_get py_int open_pdf p url =
    inl (lit "No valid chunks could be created from the PDF").
Proof.
  intros Hd Ho Hx Hs Hne. unfold Fetch.process_pdf, Fetch.extract_text.
  rewrite Hd, Ho. unfold PDF.extract_text_from_pdf.
  pose proof (extract_pages_nonempty pages 0 Hx) as Hn.
  unfold PDF.chunk_text.
  rewrite page_loop_short by (exact Hne || apply extract_pages_short, Hs).
  destruct (PDF.extract_pages pages 0); [contradiction | reflexivity].
Qed.

Example process_pdf_short_pages_witness :
  Fetch.process_pdf
    (fun _ => Fetch.GetOk (Fetch.mkHttpResponse None [[37; 80]] None))
    (fun _ => inr 0) (fun _ => inr [lit "Title page"; []; lit "one two three"])
    PDF.default_processor (lit "http://x/a.pdf") =
    inl (lit "No valid chunks could be created from the PDF").
Proof.
  apply (process_pdf_short_pages
           (fun _ => Fetch.GetOk (Fetch.mkHttpResponse None [[37; 80]] None))
           (fun _ => inr 0) (fun _ => inr [lit "Title page"; []; lit "one two three"])
           PDF.default_processor (lit "http://x/a.pdf") [37; 80]
           [lit "Title page"; []; lit "one two three"]);
    [reflexivity | reflexivity | left; vm_compute; discriminate
    | repeat constructor; vm_compute; reflexivity | vm_compute; discriminate].
Defined.

(** ** Authorisation *)

Lemma pstr_eqb_eq (a b : pstr) : pstr_eqb a b = true <-> a = b.
Proof.
  revert b; induction a as [|x a IH]; intros [|y b]; cbn [pstr_eqb];
    try (split; [discriminate | intros; discriminate]); [tauto|].
  rewrite andb_true_iff, Z.eqb_eq, IH. split; [intros [-> ->]; reflexivity|].
  intros H. injection H as -> ->. tauto.
Qed.

(** [verify_token] accepts exactly the non-empty token equal to the
    secret key, and returns it; every rejection, whether the token is
    missing or wrong, is the same 401 "Authorization token verification
    failed" (the specific details raised inside the [try] never reach the
    caller). *)
Theorem verify_token_accepts_only_secret (secret token : pstr) :
  (Auth.verify_token secret token = inr token <-> token <> [] /\ token = secret) /\
  (forall t, Auth.verify_token secret token = inr t -> t = token) /\
  (forall e, Auth.verify_token secret token = inl e ->
     e = Auth.mkHTTPException 401 (lit "Authorization token verification failed")).
Proof.
  unfold Auth.verify_token, Auth.verify_token_body.
  destruct token as [|x token].
  - split; [split; [discriminate | intros [H _]; contradiction]|].
    split; [discriminate | intros e H; injection H as <-; reflexivity].
  - destruct (pstr_eqb (x :: token) secret) eqn:He; cbn [negb].
    + apply pstr_eqb_eq in He.
      split; [split; [intros _; split; [discriminate | exact He] | reflexivity]|].
      split; [intros t H; injection H as <-; reflexivity | discriminate].
    + split; [split; [discriminate | intros [_ H]; apply pstr_eqb_eq in H; congruence]|].
      split; [discriminate | intros e H; injection H as <-; reflexivity].
Qed.

(** ** Question validation *)

Lemma check_questions_none i v :
  Schemas.check_questions i v = None -> Forall (fun q => (3 <= length (strip q))%nat) v.
Proof.
  revert i; induction v as [|q v IH]; intros i H; [constructor|].
  cbn [Schemas.check_questions] in H. destruct q as [|x q]; [discriminate|].
  destruct (strip (x :: q)) as [|y s] eqn:Hs; [discriminate|].
  destruct (Z.of_nat (length (y :: s)) <? 3) eqn:Hl; [discriminate|].
  apply Z.ltb_ge in Hl. constructor; [rewrite Hs; lia | exact (IH _ H)].
Qed.

Lemma check_questions_app i pre rest :
  Forall (fun q => (3 <= length (strip q))%nat) pre ->
  Schemas.check_questions i (pre ++ rest) =
    Schemas.check_questions (i + Z.of_nat (length pre)) rest.
Proof.
  revert i; induction pre as [|q pre IH]; intros i H.
  - cbn. rewrite Z.add_0_r. reflexivity.
  - inversion H as [|? ? Hq Hpre]; subst. cbn [app Schemas.check_questions].
    destruct q as [|x q]; [cbn in Hq; lia|].
    destruct (strip (x :: q)) as [|y s] eqn:Hs; [cbn in Hq; lia|].
    replace (Z.of_nat (length (y :: s)) <? 3) with false
      by (symmetry; apply Z.ltb_ge; lia).
    rewrite IH by exact Hpre. f_equal. cbn [length]. lia.
Qed.

(** A question list that passes validation has 1 to 10 questions and is
    returned stripped, in order, each question at least 3 characters long
    and with no surrounding whitespace left. *)
Theorem validate_questions_success (v out : list pstr) :
  Schemas.validate_questions v = inr out ->
  out = map strip v /\ (1 <= length v <= 10)%nat /\
  Forall (fun q => strip q = q /\ (3 <= length q)%nat) out.
Proof.
  unfold Schemas.validate_questions. intros H.
  destruct v as [|q0 v0]; [discriminate|].
  destruct (10 <? Z.of_nat (length (q0 :: v0))) eqn:Hl; [discriminate|].
  apply Z.ltb_ge in Hl.
  destruct (Schemas.check_questions 0 (q0 :: v0)) eqn:Hc; [discriminate|].
  injection H as <-. apply check_questions_none in Hc.
  split; [reflexivity | split; [cbn [length] in *; lia|]].
  change (Forall (fun q => strip q = q /\ (3 <= length q)%nat) (map strip (q0 :: v0))).
  apply (proj2 (Forall_map _ _ _)). eapply Forall_impl; [|exact Hc].
  intros q Hq. split; [apply strip_idem | exact Hq].
Qed.

Example validate_questions_success_witness :
  map strip [lit "  What is covered? "; lit "Why"] = map strip [lit "  What is covered? "; lit "Why"] /\
  (1 <= length [lit "  What is covered? "; lit "Why"] <= 10)%nat /\
  Forall (fun q => strip q = q /\ (3 <= length q)%nat)
    (map strip [lit "  What is covered? "; lit "Why"]).
Proof.
  apply (validate_questions_success [lit "  What is covered? "; lit "Why"]).
  vm_compute. reflexivity.
Defined.

(** The first question (in order, numbered from 1) whose stripped text has
    fewer than 3 characters decides the error of a list of at most 10
    questions: "cannot be empty" when it is blank, "must be at least 3
    characters long" otherwise; later questions are not looked at. *)
Theorem validate_questions_first_error (pre : list pstr) (q : pstr) (post : list pstr) :
  Forall (fun q => (3 <= length (strip q))%nat) pre ->
  (length (strip q) < 3)%nat ->
  (length (pre ++ q :: post) <= 10)%nat ->
  Schemas.validate_questions (pre ++ q :: post) =
    inl (lit "Question " ++ str_int (Z.of_nat (length pre) + 1) ++
         match strip q with
         | [] => lit " cannot be empty"
         | _ => lit " must be at least 3 characters long"
         end).
Proof.
  intros Hpre Hq Hlen. unfold Schemas.validate_questions.
  destruct (pre ++ q :: post) as [|q0 v0] eqn:Hv; [destruct pre; discriminate|].
  replace (10 <? Z.of_nat (length (q0 :: v0))) with false
    by (symmetry; apply Z.ltb_ge; lia).
  rewrite <- Hv, check_questions_app by exact Hpre. rewrite Z.add_0_l.
  cbn [Schemas.check_questions]. destruct q as [|x q]; [reflexivity|].
  destruct (strip (x :: q)) as [|y s] eqn:Hs; [reflexivity|].
  replace (Z.of_nat (length (y :: s)) <? 3) with true
    by (symmetry; apply Z.ltb_lt; lia).
  reflexivity.
Qed.

Example validate_questions_first_error_witness :
  Schemas.validate_questions [lit "What is covered?"; lit "  ab "; lit ""] =
    inl (lit "Question " ++ str_int (Z.of_nat 1 + 1) ++
         match strip (lit "  ab ") with
         | [] => lit " cannot be empty"
         | _ => lit " must be at least 3 characters long"
         end).
Proof.
  apply (validate_questions_first_error [lit "What is covered?"] (lit "  ab ") [lit ""]);
    [repeat constructor; vm_compute; discriminate | vm_compute; lia | vm_compute; lia].
Defined.

(** ** Answer generation and health *)

Lemma generate_answer_strip_fixed lower generate_content (question context : pstr) :
  strip (QA.generate_answer lower generate_content question context) =
    QA.generate_answer lower generate_content question context.
Proof.
  unfold QA.generate_answer.
  destruct (generate_content (QA.build_prompt question context)) as [|[[|c t]|]];
    try reflexivity.
  destruct (startswith (lower (strip (c :: t))) (lit "answer:")); apply strip_idem.
Qed.

(** No answer of a completed request has leading or trailing whitespace:
    the sentinel has none, and [_generate_answer] strips the model text
    after dropping its optional "Answer:" prefix. *)
Theorem process_qa_request_answers_stripped lower embed_content generate_content
    process_pdf top_k svc request resp svc' :
  QA.process_qa_request lower embed_content generate_content process_pdf top_k
    svc request = (inr resp, svc') ->
  Forall (fun a => strip a = a) (QA.answers resp).
Proof.
  unfold QA.process_qa_request.
  destruct (process_pdf (QA.documents request)) as [e|chunks]; [discriminate|].
  intros H. injection H as <- _. cbn [QA.answers].
  rewrite question_loop_app. cbn [app]. apply Forall_forall.
  intros a Ha. apply in_map_iff in Ha as (q & <- & _).
  unfold QA.answer_question.
  destruct (App.get_context_for_question _ _ _ _ _); [reflexivity|].
  apply generate_answer_strip_fixed.
Qed.

Example process_qa_request_answers_stripped_witness :
  let gen := fun _ : pstr => QA.GenText (Some (lit " Answer:  30 days ")) in
  let pdf := fun _ : pstr => @inr exc (list DocumentChunk)
                               [mkChunk (lit "grace period of 30 days") 0 (Some 1) None] in
  Forall (fun a => strip a = a)
    (QA.answers (QA.mkResponse
       [lit "30 days"; lit "30 days"])).
Proof.
  intros gen pdf.
  apply (process_qa_request_answers_stripped
           (map (fun c => if (65 <=? c) && (c <=? 90) then c + 32 else c))
           (fun _ _ => None) gen pdf 5
           App.empty_service (QA.mkRequest (lit "http://x/a.pdf")
                                [lit "grace period?"; lit "waiting period?"])
           (QA.mkResponse [lit "30 days"; lit "30 days"]) App.empty_service).
  vm_compute. reflexivity.
Defined.

(** A non-empty model reply made only of whitespace gives the empty
    answer, not the "Not found in document" sentinel. *)
Theorem generate_answer_blank_reply lower generate_content (question context t : pstr) :
  generate_content (QA.build_prompt question context) = QA.GenText (Some t) ->
  t <> [] -> strip t = [] ->
  QA.generate_answer lower generate_content question context = [].
Proof.
  intros Hg Hne Hs. unfold QA.generate_answer. rewrite Hg.
  destruct t as [|c t]; [contradiction|]. rewrite Hs.
  destruct (startswith (lower []) (lit "answer:")); reflexivity.
Qed.

Example generate_answer_blank_reply_witness :
  QA.generate_answer (fun s => s) (fun _ => QA.GenText (Some (lit "  "))) (lit "Q?") (lit "ctx")
    = [].
Proof.
  apply (generate_answer_blank_reply (fun s => s) (fun _ => QA.GenText (Some (lit "  ")))
           (lit "Q?") (lit "ctx") (lit "  ")); [reflexivity | discriminate | reflexivity].
Defined.

(** [health_check] answers 200 exactly when the test generation returns
    a non-empty text, and 503 otherwise (the model raising, returning no
    text or the empty text); the PDF processor and the embedding service
    are always reported healthy, and the overall status is the Gemini
    client's. *)
Theorem health_check_reflects_gemini (generate_content : pstr -> QA.GenerateOutcome) :
  let '(code, hs) := Health.health_check generate_content in
  Health.pdf_processor hs = lit "healthy" /\
  Health.embedding_service hs = lit "healthy" /\
  Health.overall hs = Health.gemini_client hs /\
  (code = 200 <->
     exists t, generate_content (lit "Say 'OK' if you can read this.") = QA.GenText (Some t) /\
               t <> []) /\
  (code = 200 \/ code = 503).
Proof.
  unfold Health.health_check, Health.get_health_status.
  destruct (generate_content (lit "Say 'OK' if you can read this.")) as [|[[|c t]|]];
    cbn -[lit]; (split; [reflexivity | split; [reflexivity | split; [reflexivity|]]]).
  - split; [split; [discriminate | intros (t & H & _); discriminate] | right; reflexivity].
  - split; [split; [discriminate | intros (t & H & Ht); injection H as <-; contradiction]
           | right; reflexivity].
  - split; [split; [intros _; exists (c :: t); split; [reflexivity | discriminate]
                   | reflexivity] | left; reflexivity].
  - split; [split; [discriminate | intros (t & H & _); discriminate] | right; reflexivity].
Qed.

(** ** The search of [app] on any index state *)

Lemma nodup_ids_inj (cs : list DocumentChunk) c d :
  NoDup (map chunk_id cs) -> In c cs -> In d cs -> chunk_id c = chunk_id d -> c = d.
Proof.
  induction cs as [|x cs IH]; simpl; [tauto|].
  intros H. inversion H as [|? ? Hx Hnd]; subst.
  intros [<-|Hc] [<-|Hd] Heq; auto.
  - exfalso. apply Hx. rewrite Heq. apply in_map, Hd.
  - exfalso. apply Hx. rewrite <- Heq. apply in_map, Hc.
Qed.

Lemma firstn_perm_bounds (L cs : list DocumentChunk) (K : nat) :
  Permutation L cs -> NoDup (map chunk_id cs) ->
  length (firstn K L) = Nat.min K (length cs) /\
  NoDup (map chunk_id (firstn K L)) /\ incl (firstn K L) cs.
Proof.
  intros Hp Hnd. split; [|split].
  - rewrite length_firstn, (Permutation_length Hp). reflexivity.
  - rewrite <- firstn_map. apply firstn_NoDup.
    apply (Permutation_NoDup (Permutation_map chunk_id (Permutation_sym Hp))), Hnd.
  - intros x Hx. apply (Permutation_in _ Hp). apply (firstn_incl K), Hx.
Qed.

Lemma app_score_loop_fst lower qw cs :
  map fst (App.score_loop lower qw cs) =
  filter (fun c => 0 <? SpecProps.overlap_score lower qw c) cs.
Proof.
  induction cs as [|c cs IH]; simpl; [reflexivity|].
  change (Z.of_nat (intersection_len qw (set_of (split (lower (content c))))))
    with (SpecProps.overlap_score lower qw c).
  destruct (0 <? SpecProps.overlap_score lower qw c); simpl; rewrite IH; reflexivity.
Qed.

Lemma app_fill_loop_firstn used (k : Z) pool acc :
  0 <= k ->
  App.fill_loop used k pool acc =
  acc ++ firstn (Z.to_nat k - length acc)
           (filter (fun c => negb (existsb (Z.eqb (chunk_id c)) used)) pool).
Proof.
  intros Hk. revert acc; induction pool as [|c pool IH]; intros acc; simpl.
  - rewrite firstn_nil, app_nil_r. reflexivity.
  - destruct (negb (existsb (Z.eqb (chunk_id c)) used)) eqn:Eu; simpl.
    + destruct (Z.of_nat (length acc) <? k) eqn:El.
      * apply Z.ltb_lt in El. rewrite IH, length_app, <- app_assoc. simpl.
        replace (Z.to_nat k - length acc)%nat with (S (Z.to_nat k - (length acc + 1)))
          by lia.
        reflexivity.
      * apply Z.ltb_ge in El. rewrite IH.
        replace (Z.to_nat k - length acc)%nat with 0%nat by lia. reflexivity.
    + apply IH.
Qed.

(** The keyword search of [app] is a prefix of some reordering of the
    index: the ranked chunks of positive overlap, then the others. *)
Lemma app_keyword_search_prefix lower self query top_k :
  0 <= top_k -> NoDup (map chunk_id (App.chunks self)) ->
  exists L, Permutation L (App.chunks self) /\
    App.keyword_search lower self query top_k = firstn (Z.to_nat top_k) L.
Proof.
  intros Hk Hnd. unfold App.keyword_search.
  set (cs := App.chunks self) in *.
  set (qw := set_of (split (lower query))).
  set (f := fun c => 0 <? SpecProps.overlap_score lower qw c).
  set (Ssc := sort_reverse (fun a b => snd a <? snd b) (App.score_loop lower qw cs)).
  set (M := map fst Ssc).
  set (F := filter (fun c => negb (f c)) cs).
  set (K := Z.to_nat top_k).
  assert (HMP : Permutation M (filter f cs)).
  { unfold M, Ssc. rewrite (Permutation_map fst (sort_reverse_perm _ _)).
    rewrite app_score_loop_fst. reflexivity. }
  assert (Hperm : Permutation (M ++ F) cs).
  { rewrite HMP. apply filter_partition_perm. }
  assert (Hused : filter (fun c => negb (existsb (Z.eqb (chunk_id c)) (map chunk_id M)))
                    cs = F).
  { apply filter_ext_in. intros c Hc. f_equal.
    destruct (f c) eqn:Ec.
    - apply existsb_exists. exists (chunk_id c). split; [|apply Z.eqb_refl].
      apply in_map. apply (Permutation_in _ (Permutation_sym HMP)).
      apply filter_In. split; assumption.
    - apply Bool.not_true_is_false. intros He.
      apply existsb_exists in He. destruct He as [i [Hi Heq]].
      apply Z.eqb_eq in Heq. apply in_map_iff in Hi. destruct Hi as [d [Hd HdM]].
      apply (Permutation_in _ HMP) in HdM. apply filter_In in HdM.
      destruct HdM as [HdC Hdpos].
      rewrite (nodup_ids_inj cs c d Hnd Hc HdC) in Ec by congruence.
      congruence. }
  exists (M ++ F). split; [exact Hperm|].
  rewrite !(take_nonneg top_k) by exact Hk. fold K.
  rewrite <- firstn_map. fold M.
  destruct (Nat.le_gt_cases K (length M)) as [HKle|HKgt].
  - assert (HlK : length (firstn K M) = K) by (rewrite length_firstn; lia).
    rewrite HlK.
    replace (Z.of_nat K <? top_k) with false
      by (symmetry; apply Z.ltb_ge; unfold K; lia).
    rewrite firstn_firstn, Nat.min_id, firstn_app.
    replace (K - length M)%nat with 0%nat by lia.
    rewrite app_nil_r. reflexivity.
  - rewrite (firstn_all2 M) by lia.
    replace (Z.of_nat (length M) <? top_k) with true
      by (symmetry; apply Z.ltb_lt; unfold K in HKgt; lia).
    rewrite app_fill_loop_firstn by exact Hk. fold K. rewrite Hused.
    rewrite !firstn_app, firstn_firstn, Nat.min_id, (firstn_all2 M) by lia.
    reflexivity.
Qed.

Lemma similarities_fst q cs es sims :
  length cs = length es -> App.similarities q cs es = Some sims -> map fst sims = cs.
Proof.
  revert es sims; induction cs as [|c cs IH]; intros [|e es] sims Hl H;
    try discriminate.
  - injection H as <-. reflexivity.
  - cbn [App.similarities] in H.
    destruct (App.dot q e); [|discriminate].
    destruct (App.similarities q cs es) as [rest|] eqn:Hr; [|discriminate].
    injection H as <-. cbn [map fst]. f_equal. apply (IH es); [|exact Hr].
    cbn [length] in Hl. lia.
Qed.

Lemma app_semantic_search_prefix embed_content self query top_k similar :
  0 <= top_k ->
  App.semantic_search embed_content self query top_k = Some similar ->
  exists L, Permutation L (App.chunks self) /\ similar = firstn (Z.to_nat top_k) L.
Proof.
  intros Hk. unfold App.semantic_search.
  destruct (App.embeddings self) as [|e es] eqn:He; [discriminate|].
  destruct (Nat.eqb (length (e :: es)) (length (App.chunks self))) eqn:Hl;
    [|discriminate].
  apply Nat.eqb_eq in Hl.
  destruct (App.get_embedding embed_content query (lit "retrieval_query"))
    as [[|x qe]|]; try discriminate.
  destruct (App.similarities _ (App.chunks self) (e :: es)) as [sims|] eqn:Hs;
    [|discriminate].
  intros H. injection H as <-.
  apply similarities_fst in Hs; [|symmetry; exact Hl].
  exists (map fst (sort_reverse (fun a b => PrimFloat.ltb (snd a) (snd b)) sims)).
  split.
  - rewrite <- Hs. apply Permutation_map, sort_reverse_perm.
  - rewrite take_nonneg by exact Hk. symmetry. apply firstn_map.
Qed.

(** Whatever state the index of [app] is in (semantic, partially semantic
    or keyword), a search that succeeds with [top_k >= 0] over chunks with
    distinct [chunk_id]s returns [min(top_k, number of chunks)] distinct
    chunks of the index. *)
Theorem app_search_topk_distinct lower embed_content self query top_k similar :
  0 <= top_k -> NoDup (map chunk_id (App.chunks self)) ->
  App.search_similar_chunks lower embed_content self query top_k = inr similar ->
  length similar = Nat.min (Z.to_nat top_k) (length (App.chunks self)) /\
  NoDup (map chunk_id similar) /\ incl similar (App.chunks self).
Proof.
  intros Hk Hnd. unfold App.search_similar_chunks.
  destruct (App.chunks self) as [|c cs] eqn:Hc; [discriminate|]. rewrite <- Hc in Hnd |- *.
  destruct (App.semantic_search embed_content self query top_k) as [sem|] eqn:Hsem;
    intros H; injection H as <-.
  - destruct (app_semantic_search_prefix embed_content self query top_k sem Hk Hsem)
      as (L & Hp & ->).
    apply firstn_perm_bounds; [exact Hp | exact Hnd].
  - destruct (app_keyword_search_prefix lower self query top_k Hk Hnd) as (L & Hp & ->).
    apply firstn_perm_bounds; [exact Hp | exact Hnd].
Qed.

Example app_search_topk_distinct_witness :
  let chunks := [mkChunk (lit "alpha beta") 7 (Some 1) None;
                 mkChunk (lit "gamma delta") 3 (Some 2) None;
                 mkChunk (lit "beta gamma") 5 (Some 2) None] in
  let self := App.create_vector_index (fun _ _ => None) chunks in
  exists similar,
    App.search_similar_chunks (fun s => s) (fun _ _ => None) self (lit "gamma") 2 =
      inr similar /\
    length similar = Nat.min (Z.to_nat 2) (length (App.chunks self)) /\
    NoDup (map chunk_id similar) /\ incl similar (App.chunks self).
Proof.
  intros chunks self.
  exists [mkChunk (lit "gamma delta") 3 (Some 2) None;
          mkChunk (lit "beta gamma") 5 (Some 2) None].
  assert (Hr : App.search_similar_chunks (fun s => s) (fun _ _ => None) self (lit "gamma") 2 =
                 inr [mkChunk (lit "gamma delta") 3 (Some 2) None;
                      mkChunk (lit "beta gamma") 5 (Some 2) None])
    by (vm_compute; reflexivity).
  split; [exact Hr|].
  apply (app_search_topk_distinct (fun s => s) (fun _ _ => None) self (lit "gamma") 2);
    [lia | vm_compute; repeat constructor; simpl; lia | exact Hr].
Defined.
